(** * Thermography imaging pipeline: the stage code and its properties

    A shallow embedding of the thermography products of the pipeline
    (ConcreteProducts/Thermography/*.py): the frequency-group matcher that the
    stages share, the BRISQUE quality gate, the three preprocessing steps,
    the channel merge of the enrichment stage, the threshold filter of the
    defect detector, the save step of every stage on a model of the working
    directory, and the collaborator handoff of [load_images]. *)

From Stdlib Require Import Ascii String QArith Qround Lia Lqa.
From stdpp Require Import base option list sorting strings gmap.

Local Open Scope string_scope.

(** ** Outcomes of Python code

    A Python call either returns or raises.  [AssertionError] carries the
    list that the handler hands to [logger.error] ("Check files: ...") right
    before it re-raises the exception. *)

Inductive exn :=
| AssertionError (checked_files : list string)
| IndexError
| AttributeError
| ValueError (msg : string)
| FileNotFoundError (path : string)
| IsADirectoryError (path : string)
| SystemExit (code : Z).

Inductive outcome (A : Type) :=
| Done (a : A)
| Raised (e : exn).
Arguments Done {A} a.
Arguments Raised {A} e.

#[global] Instance outcome_bind : MBind outcome := fun A B f m =>
  match m with
  | Done a => f a
  | Raised e => Raised e
  end.

(** A [for] loop whose body may raise: the loop stops at the first
    exception, as Python does. *)
Fixpoint for_each {A S} (xs : list A) (body : A -> S -> outcome S) (s : S)
  : outcome S :=
  match xs with
  | [] => Done s
  | x :: xs' => s' ← body x s; for_each xs' body s'
  end.

(** ** Strings: [in], [os.path.basename], and the [re] fragment in use *)

Module Str.

Fixpoint startswith (a s : string) : bool :=
  match a, s with
  | EmptyString, _ => true
  | String c a', String d s' => Ascii.eqb c d && startswith a' s'
  | String _ _, EmptyString => false
  end.

(** [a in s] on Python strings: [a] occurs in [s] as a substring. *)
Fixpoint contains (a s : string) : bool :=
  startswith a s ||
  match s with
  | EmptyString => false
  | String _ s' => contains a s'
  end.

(** [s.endswith(a)] *)
Definition endswith (a s : string) : bool :=
  startswith (String.rev a) (String.rev s).

Fixpoint has_char (c : ascii) (s : string) : bool :=
  match s with
  | EmptyString => false
  | String d s' => Ascii.eqb c d || has_char c s'
  end.

(** [posixpath.basename]: what follows the last ["/"]. *)
Fixpoint basename (p : string) : string :=
  match p with
  | EmptyString => EmptyString
  | String c p' =>
      if has_char "/" p' then basename p'
      else if Ascii.eqb c "/" then p' else p
  end.

(** [posixpath.dirname] on the paths the stages build: what precedes the
    last ["/"] (the empty string when there is none). *)
Fixpoint dirname (p : string) : string :=
  match p with
  | EmptyString => EmptyString
  | String c p' =>
      if has_char "/" p' then String c (dirname p') else EmptyString
  end.

(** [posixpath.join] of a directory and an entry name. *)
Definition join (d n : string) : string :=
  if startswith "/" n then n
  else match d with
       | EmptyString => n
       | _ => if Ascii.eqb (default "/"%char (last (list_ascii_of_string d))) "/"
              then d +:+ n else d +:+ "/" +:+ n
       end.

Definition is_digit (c : ascii) : bool :=
  let n := nat_of_ascii c in (48 <=? n)%nat && (n <=? 57)%nat.

(** [\s] on a [str] pattern: the whitespace among the first 256 code
    points. *)
Definition is_space (c : ascii) : bool :=
  let n := nat_of_ascii c in
  ((9 <=? n)%nat && (n <=? 13)%nat) || ((28 <=? n)%nat && (n <=? 32)%nat)
  || (n =? 133)%nat || (n =? 160)%nat.

(** The pieces a pattern of this program is a sequence of. *)
Inductive atom :=
| Chr (c : ascii)              (* the character itself *)
| Cls (p : ascii -> bool)      (* one character of a class *)
| Opt (c : ascii)              (* c?  *)
| Star (p : ascii -> bool)     (* [..]*  *)
| Plus (p : ascii -> bool).    (* [..]+  *)

(** Greedy repetition with backtracking: take the character, and come back
    to the continuation at this point if the rest fails with it. *)
Fixpoint star (p : ascii -> bool) (k : string -> option string) (s : string)
  : option string :=
  match s with
  | EmptyString => k s
  | String c s' =>
      if p c then
        match star p k s' with
        | Some r => Some r
        | None => k s
        end
      else k s
  end.

(** [match_here pat s]: the first match of [pat] at the start of [s] in
    the order a backtracking matcher finds them, as what is left of [s]
    behind the match. *)
Fixpoint match_here (pat : list atom) (s : string) : option string :=
  match pat with
  | [] => Some s
  | Chr c :: pat' =>
      match s with
      | String d s' => if Ascii.eqb c d then match_here pat' s' else None
      | EmptyString => None
      end
  | Cls p :: pat' =>
      match s with
      | String d s' => if p d then match_here pat' s' else None
      | EmptyString => None
      end
  | Opt c :: pat' =>
      match s with
      | String d s' =>
          if Ascii.eqb c d then
            match match_here pat' s' with
            | Some r => Some r
            | None => match_here pat' s
            end
          else match_here pat' s
      | EmptyString => match_here pat' s
      end
  | Star p :: pat' => star p (match_here pat') s
  | Plus p :: pat' =>
      match s with
      | String d s' => if p d then star p (match_here pat') s' else None
      | EmptyString => None
      end
  end.

(** Length of the match of [pat] at the start of [s]. *)
Definition match_len (pat : list atom) (s : string) : option nat :=
  match match_here pat s with
  | Some r => Some (String.length s - String.length r)%nat
  | None => None
  end.

(** [re.sub(pat, repl, s)]: every leftmost non-overlapping match is
    replaced.  [skip] counts the characters of the current match that are
    still to be dropped.  The patterns of this program match no empty
    string. *)
Fixpoint sub_from (pat : list atom) (repl : string) (skip : nat) (s : string)
  : string :=
  match s with
  | EmptyString => EmptyString
  | String c s' =>
      match skip with
      | S n => sub_from pat repl n s'
      | O =>
          match match_len pat s with
          | Some (S n) => repl +:+ sub_from pat repl n s'
          | _ => String c (sub_from pat repl 0 s')
          end
      end
  end.

Definition re_sub (pat : list atom) (repl s : string) : string :=
  sub_from pat repl 0 s.

Definition push (c : ascii) (pieces : list string) : list string :=
  match pieces with
  | [] => [String c EmptyString]
  | p :: ps => String c p :: ps
  end.

(** [re.split(pat, s)]: the pieces between the matches. *)
Fixpoint split_from (pat : list atom) (skip : nat) (s : string) : list string :=
  match s with
  | EmptyString => [EmptyString]
  | String c s' =>
      match skip with
      | S n => split_from pat n s'
      | O =>
          match match_len pat s with
          | Some (S n) => EmptyString :: split_from pat n s'
          | _ => push c (split_from pat 0 s')
          end
      end
  end.

Definition re_split (pat : list atom) (s : string) : list string :=
  split_from pat 0 s.

End Str.

(** ** The frequency-group matcher *)

(** ["[0-9]+_?[0-9]*Hz"] *)
Definition frequency_pattern : list Str.atom :=
  [Str.Plus Str.is_digit; Str.Opt "_"; Str.Star Str.is_digit;
   Str.Chr "H"; Str.Chr "z"].

(** ['\s\s'] *)
Definition double_space_pattern : list Str.atom :=
  [Str.Cls Str.is_space; Str.Cls Str.is_space].

(** [re.sub("[0-9]+_?[0-9]*Hz", "", basename(s))] *)
Definition ungrouped_name (s : string) : string :=
  Str.re_sub frequency_pattern "" (Str.basename s).

(** [uip]: the names of the images without the frequency part. *)
Definition uip (image_paths : list string) : list string :=
  ungrouped_name <$> image_paths.

(** The two list comprehensions of the loop body.  [split_path[1]] is
    evaluated once per path that passed the first filter, so a name without
    two adjacent blanks raises [IndexError] only if some path contains
    [split_path[0]]. *)
Definition corresponding_paths (image_paths : list string)
    (composite_image_name : string) : outcome (list string) :=
  let split_path := Str.re_split double_space_pattern composite_image_name in
  let first := filter (fun s => Str.contains (default "" (split_path !! 0%nat)) s = true)
                      image_paths in
  match first with
  | [] => Done []
  | _ =>
      match split_path !! 1%nat with
      | Some suffix => Done (filter (fun s => Str.contains suffix s = true) first)
      | None => Raised IndexError
      end
  end.

(** [assert len(corresponding_paths) == 3], with the handler that logs the
    list and re-raises. *)
Definition assert_three (paths : list string) : outcome (list string) :=
  if (length paths =? 3)%nat then Done paths else Raised (AssertionError paths).

(** The members of one composite image, as every stage computes them. *)
Definition group_of (image_paths : list string) (name : string)
  : outcome (list string) :=
  ps ← corresponding_paths image_paths name; assert_three ps.

(** [set(uip)] yields each distinct name once, in an order the language
    leaves open.  The loops below take the sequence of names they visit as
    an argument; [set_order] is one such sequence. *)
Definition set_order (names : list string) : list string := remove_dups names.


(** A file of one measurement: [<prefix> <token> <suffix>] in directory
    [d], the naming contract of the stages, where [token] is the frequency
    (["1Hz"], ["0_5Hz"]). *)
Definition frequency_file (d prefix token suffix : string) : string :=
  Str.join d (prefix +:+ " " +:+ token +:+ " " +:+ suffix).

(** The three measurements of one sample. *)
Definition sample_files (d prefix suffix : string) (tokens : list string)
  : list string :=
  (fun token => frequency_file d prefix token suffix) <$> tokens.

(** ** Python dictionaries

    A [dict] keeps its keys in insertion order, and assigning to a key that
    is present replaces the value where it stands. *)

Module Dict.

Fixpoint get {V} (d : list (string * V)) (k : string) : option V :=
  match d with
  | [] => None
  | (k', v) :: d' => if String.eqb k k' then Some v else get d' k
  end.

Fixpoint set {V} (k : string) (v : V) (d : list (string * V))
  : list (string * V) :=
  match d with
  | [] => [(k, v)]
  | (k', v') :: d' =>
      if String.eqb k k' then (k, v) :: d' else (k', v') :: set k v d'
  end.

Definition keys {V} (d : list (string * V)) : list string := d.*1.

End Dict.

(** ** Images, arrays, files and the working directory *)

(** A PIL image: its mode (["L"], ["RGB"]), its size (width, height) and
    one list of pixel values per band. *)
Record image := Image {
  mode : string;
  size : nat * nat;
  bands : list (list Z)
}.

#[global] Instance image_eq_dec : EqDecision image.
Proof. solve_decision. Defined.

Inductive dtype := uint8 | float64.

(** A numpy array, flattened in row-major order. *)
Record ndarray := NDArray {
  dt : dtype;
  shape : list nat;
  data : list Q
}.

(** One prediction of the detection model. *)
Record detection := Detection {
  pred_box : Q * Q * Q * Q;
  pred_class : nat;
  det_score : Q
}.

(** What a file holds: an image, or an image on which the kept boxes and
    their scores were drawn (the box colours are random and not kept). *)
Inductive file :=
| Picture (img : image)
| Annotated (img : image) (drawn : list detection).

Inductive entry :=
| File (f : file)
| Folder.

(** The file system: every directory, under its path, with its entries by
    name.  [join(d, name)] with a [name] that has no separator denotes the
    entry [name] of directory [d]; a path [p] denotes the entry
    [basename p] of directory [dirname p]. *)
Abbreviation filesystem := (gmap string (gmap string entry)).

Module FS.

Definition exists_ (d : string) (fs : filesystem) : bool :=
  bool_decide (is_Some (fs !! d)).

Definition makedirs (d : string) (fs : filesystem) : filesystem :=
  <[d := ∅]> fs.

Definition listdir (d : string) (fs : filesystem) : list string :=
  (map_to_list (default ∅ (fs !! d))).*1.

(** [os.remove(join(d, name))] *)
Definition remove (d name : string) (fs : filesystem) : outcome filesystem :=
  match fs !! d with
  | None => Raised (FileNotFoundError (Str.join d name))
  | Some entries =>
      match entries !! name with
      | Some (File _) => Done (<[d := delete name entries]> fs)
      | Some Folder => Raised (IsADirectoryError (Str.join d name))
      | None => Raised (FileNotFoundError (Str.join d name))
      end
  end.

Definition read (path : string) (fs : filesystem) : outcome file :=
  match fs !! Str.dirname path with
  | None => Raised (FileNotFoundError path)
  | Some entries =>
      match entries !! Str.basename path with
      | Some (File f) => Done f
      | Some Folder => Raised (IsADirectoryError path)
      | None => Raised (FileNotFoundError path)
      end
  end.

(** Opening [join(d, name)] for writing and writing [f]. *)
Definition write (d name : string) (f : file) (fs : filesystem)
  : outcome filesystem :=
  match fs !! d with
  | None => Raised (FileNotFoundError (Str.join d name))
  | Some entries =>
      if String.eqb name "" then Raised (IsADirectoryError (Str.join d name))
      else match entries !! name with
           | Some Folder => Raised (IsADirectoryError (Str.join d name))
           | _ => Done (<[d := <[name := File f]> entries]> fs)
           end
  end.

(** [shutil.copyfile(path, join(d, basename(path)))]; copying a file onto
    itself raises [SameFileError], a [ValueError] here. *)
Definition copyfile (path d : string) (fs : filesystem) : outcome filesystem :=
  f ← read path fs;
  if String.eqb (Str.dirname path) d
  then Raised (ValueError "SameFileError")
  else write d (Str.basename path) f fs.

(** The head of every [save_images]:
    [if not exists(NewImageDir): makedirs(NewImageDir)
     else: for filename in listdir(NewImageDir): remove(join(NewImageDir, filename))] *)
Definition prepare (NewImageDir : string) (fs : filesystem)
  : outcome filesystem :=
  if exists_ NewImageDir fs
  then for_each (listdir NewImageDir fs) (remove NewImageDir) fs
  else Done (makedirs NewImageDir fs).

End FS.

(** ** Acquisition (Acquisition_thermo_PassImages.py) *)

Definition Acquisition_save_images (Working_directory : string)
    (image_paths : list string) (fs : filesystem) : outcome filesystem :=
  let NewImageDir := Str.join Working_directory "1.Acquired_images" in
  fs ← FS.prepare NewImageDir fs;
  for_each image_paths (fun image_path => FS.copyfile image_path NewImageDir) fs.

(** ** Image quality assessment (IQA_thermo.py) *)

Record composite_dict := CompositeDict {
  composite_name : string;
  image_paths : list string;
  scores : list Q;
  passed : list bool;
  Composite_pass : bool
}.

(** [score < threshold] *)
Definition Qltb (a b : Q) : bool := negb (Qle_bool b a).

(** The body of the loop of [Asses] for one composite name; [get_score] is
    [brisq.get_score]. *)
Definition Asses_body (get_score : string -> Q) (brisque_threshold : Q)
    (paths : list string) (composite_image_name : string)
    (composite_ls : list composite_dict) : outcome (list composite_dict) :=
  corresponding ← group_of paths composite_image_name;
  let scores := get_score <$> corresponding in
  let passed := (fun score => if Qltb score brisque_threshold then true else false)
                <$> scores in
  Done (composite_ls ++
        [ {| composite_name := composite_image_name;
             image_paths := corresponding;
             scores := scores;
             passed := passed;
             Composite_pass := forallb (fun p => Bool.eqb p true) passed |} ])%list.

(** [Asses], visiting the composite names in the order [names]. *)
Definition Asses_over (names : list string) (get_score : string -> Q)
    (brisque_threshold : Q) (paths : list string)
  : outcome (list composite_dict) :=
  for_each names (Asses_body get_score brisque_threshold paths) [].

Definition Asses (get_score : string -> Q) (brisque_threshold : Q)
    (paths : list string) : outcome (list composite_dict) :=
  Asses_over (set_order (uip paths)) get_score brisque_threshold paths.

Definition IQA_save_images (Working_directory : string)
    (composite_ls : list composite_dict) (fs : filesystem)
  : outcome filesystem :=
  let NewImageDir := Str.join Working_directory "2.IQA_images" in
  fs ← FS.prepare NewImageDir fs;
  for_each composite_ls
    (fun composite_dict fs =>
       if Bool.eqb (Composite_pass composite_dict) true
       then for_each (image_paths composite_dict)
                     (fun path => FS.copyfile path NewImageDir) fs
       else Done fs)
    fs.

(** What [Asses] records for a composite name. *)
Definition recorded (get_score : string -> Q) (thr : Q) (paths : list string)
    (n : string) (d : composite_dict) : Prop :=
  composite_name d = n /\
  corresponding_paths paths n = Done (image_paths d) /\
  length (image_paths d) = 3%nat /\
  scores d = get_score <$> image_paths d /\
  passed d = (fun score => Qltb score thr) <$> scores d /\
  Composite_pass d = forallb id (passed d).

(** The default of [BrisqueThreshold]. *)
Definition default_brisque_threshold : Q := 70.

(** ** Preprocessing (Preprocess_thermo.py) *)

(** A value of [images_dict]: the PIL image that [load_images] opened, or
    the array a preprocessing step left in its place. *)
Inductive pixels :=
| Pil (img : image)
| Arr (a : ndarray).

(** [Image.open(path)] *)
Definition Image_open (path : string) (fs : filesystem) : outcome image :=
  f ← FS.read path fs;
  match f with
  | Picture img => Done img
  | Annotated img _ => Done img
  end.

(** The loop of [load_images] that follows the handoff, for one composite
    name: the three members are checked, opened and stored under their
    paths.  Preprocessing and enrichment share it. *)
Definition load_group {V} (wrap : image -> V) (fs : filesystem)
    (paths : list string) (composite_image_name : string)
    (images_dict : list (string * V)) : outcome (list (string * V)) :=
  corresponding ← group_of paths composite_image_name;
  for_each corresponding
    (fun path images_dict =>
       image ← Image_open path fs; Done (Dict.set path (wrap image) images_dict))
    images_dict.


(** Pixel [i] of every band in turn, for [i] along the first band. *)
Definition interleave (bs : list (list Z)) : list Z :=
  match bs with
  | [] => []
  | b :: _ => flat_map (fun i => (fun band => nth i band 0%Z) <$> bs)
                       (seq 0 (length b))
  end.

(** [np.asarray(image)] *)
Definition asarray (img : image) : ndarray :=
  {| dt := uint8;
     shape := match bands img with
              | [_] => [snd (size img); fst (size img)]
              | bs => [snd (size img); fst (size img); length bs]
              end;
     data := inject_Z <$> interleave (bands img) |}.

(** [arr = np.asarray(image) if type(image) is Image.Image else image] *)
Definition as_array (image : pixels) : ndarray :=
  match image with
  | Pil img => asarray img
  | Arr a => a
  end.

#[global] Instance Qle_dec : RelDecision Qle := fun x y =>
  match Qlt_le_dec y x with
  | left H => right (Qlt_not_le _ _ H)
  | right H => left H
  end.

#[global] Instance Qlt_dec : RelDecision Qlt := fun x y =>
  match Qlt_le_dec x y with
  | left H => left H
  | right H => right (Qle_not_lt _ _ H)
  end.

#[global] Instance Qle_total : Total Qle := fun x y =>
  match Qlt_le_dec x y with
  | left H => or_introl (Qlt_le_weak _ _ H)
  | right H => or_intror H
  end.

#[global] Instance Qle_transitive : Transitive Qle := Qle_trans.

(** [np.quantile(arr, q)] with the default linear method: the value at the
    virtual index [q * (n - 1)] of the sorted array, interpolated between
    its two neighbours. *)
Definition quantile (arr : list Q) (q : Q) : Q :=
  let sorted := merge_sort Qle arr in
  let n := length sorted in
  let virtual_index := (q * (inject_Z (Z.of_nat n) - 1))%Q in
  let previous := Z.to_nat (Qfloor virtual_index) in
  let next := Nat.min (previous + 1) (n - 1) in
  let gamma := (virtual_index - inject_Z (Qfloor virtual_index))%Q in
  let a := nth previous sorted 0%Q in
  let b := nth next sorted 0%Q in
  (a + (b - a) * gamma)%Q.

(** Storing a float into an array of the given type: [uint8] keeps the
    integer part. *)
Definition cast (t : dtype) (v : Q) : Q :=
  match t with
  | uint8 => inject_Z (Z.quot (Qnum v) (Zpos (Qden v)) mod 256)
  | float64 => v
  end.

(** [res[mask] = v] *)
Definition assign_where (mask : list bool) (v : Q) (res : list Q) : list Q :=
  zip_with (fun (m : bool) x => if m then v else x) mask res.

Definition Preprocess_step2_array (arr : ndarray) : ndarray :=
  let Q1 := quantile (data arr) (1 # 4) in
  let Q3 := quantile (data arr) (3 # 4) in
  let IQR := (Q3 - Q1)%Q in
  let res := data arr in
  let res := assign_where ((fun x => Qltb (Q3 + IQR * (3 # 2)) x) <$> data arr)
                          (cast (dt arr) (Q3 + IQR * (3 # 2))) res in
  let res := assign_where ((fun x => Qle_bool x (Q1 - IQR * (3 # 2))) <$> data arr)
                          (cast (dt arr) (Q1 - IQR * (3 # 2))) res in
  {| dt := dt arr; shape := shape arr; data := res |}.

Definition Preprocess_step2 (images_dict : list (string * pixels))
  : list (string * pixels) :=
  prod_map id (fun image => Arr (Preprocess_step2_array (as_array image)))
  <$> images_dict.

Definition Qsum (xs : list Q) : Q := foldr Qplus 0%Q xs.

(** [arr.mean()] *)
Definition mean (xs : list Q) : Q :=
  (Qsum xs / inject_Z (Z.of_nat (length xs)))%Q.

(** [arr.std()]: the square root of the mean squared distance to the mean.
    The square root is the one of the floating-point unit, an argument
    here. *)
Definition std (sqrt : Q -> Q) (xs : list Q) : Q :=
  let m := mean xs in
  sqrt (mean ((fun x => (x - m) * (x - m))%Q <$> xs)).

(** numpy's [binary_search_with_guess] on an [xp] of two points. *)
Definition binary_search_with_guess (key xp0 xp1 : Q) : Z :=
  if Qltb xp1 key then 2
  else if Qltb key xp0 then -1
  else if Qle_bool xp1 key then 1 else 0.

(** [np.interp(x, (xp0, xp1), (fp0, fp1))] at one [x], as numpy's
    [arr_interp] computes it. *)
Definition interp (x xp0 xp1 fp0 fp1 : Q) : Q :=
  let j := binary_search_with_guess x xp0 xp1 in
  if (j =? -1)%Z then fp0
  else if (j =? 2)%Z then fp1
  else if (j =? 1)%Z then fp1
  else if Qeq_bool xp0 x then fp0
  else ((fp1 - fp0) / (xp1 - xp0) * (x - xp0) + fp0)%Q.

Definition Preprocess_step3_array (sqrt : Q -> Q) (arr : ndarray) : ndarray :=
  let m := mean (data arr) in
  let sd := std sqrt (data arr) in
  {| dt := float64;
     shape := shape arr;
     data := (fun x => interp x (m - sd * 2) (m + sd * 2) (-0) 255)%Q
             <$> data arr |}.

Definition Preprocess_step3 (sqrt : Q -> Q)
    (images_dict : list (string * pixels)) : list (string * pixels) :=
  prod_map id (fun image => Arr (Preprocess_step3_array sqrt (as_array image)))
  <$> images_dict.

(** Every [k]-th value from position [b] on. *)
Definition band_of (k b : nat) (xs : list Z) : list Z :=
  (fun i => nth (i * k + b) xs 0%Z) <$> seq 0 (length xs / k).

(** [Image.fromarray(image.astype(np.uint8))] *)
Definition fromarray_uint8 (a : ndarray) : outcome image :=
  let values := (fun v => Z.quot (Qnum (cast uint8 v)) 1) <$> data a in
  match shape a with
  | [h; w] => Done {| mode := "L"; size := (w, h); bands := [values] |}
  | [h; w; 3%nat] =>
      Done {| mode := "RGB"; size := (w, h);
              bands := (fun b => band_of 3 b values) <$> [0; 1; 2]%nat |}
  | _ => Raised (ValueError "Cannot handle this data type")
  end.

Definition Preprocess_save_images (Working_directory : string)
    (images_dict : list (string * pixels)) (fs : filesystem)
  : outcome filesystem :=
  let NewImageDir := Str.join Working_directory "3.Preprocessed_images" in
  fs ← FS.prepare NewImageDir fs;
  for_each images_dict
    (fun '(path, image) fs =>
       image ← match image with
               | Arr a => fromarray_uint8 a
               | Pil img => Done img
               end;
       FS.write NewImageDir (Str.basename path) (Picture image) fs)
    fs.

(** ** Enrichment (Enrichment_thermo.py) *)

Definition Enrichment_load_groups (names : list string) (fs : filesystem)
    (paths : list string) (images_dict : list (string * image))
  : outcome (list (string * image)) :=
  for_each names (load_group id fs paths) images_dict.

Definition getmodebands (mode : string) : nat :=
  if String.eqb mode "L" then 1
  else if String.eqb mode "RGB" then 3
  else if String.eqb mode "RGBA" then 4 else 0.

(** PIL's [Image.merge(mode, bands)]: as many single-band images of one
    size as the mode has bands, each becoming one band of the result in the
    order given.  A [None] among them has no [mode] or [size]. *)
Definition Image_merge (mode_ : string) (images : list (option image))
  : outcome image :=
  if negb (getmodebands mode_ =? length images)%nat
  then Raised (ValueError "wrong number of bands")
  else
    match mapM (M := option) id images with
    | None => Raised AttributeError
    | Some ims =>
        match ims with
        | [] => Raised (ValueError "wrong number of bands")
        | first :: _ =>
            if negb (forallb (fun im => String.eqb (mode im) "L"
                                        && (length (bands im) =? 1)%nat) ims)
            then Raised (ValueError "mode mismatch")
            else if negb (forallb (fun im => bool_decide (size im = size first)) ims)
            then Raised (ValueError "size mismatch")
            else Done {| mode := mode_; size := size first;
                         bands := (fun im => default [] (head (bands im))) <$> ims |}
        end
    end.

(** The body of the loop of [enrich] for one composite name. *)
Definition enrich_body (paths : list string)
    (images_dict : list (string * image)) (composite_image_name : string)
    (composites_im_dict : list (string * image))
  : outcome (list (string * image)) :=
  corresponding ← corresponding_paths paths composite_image_name;
  let images := (fun key => Dict.get images_dict key) <$> corresponding in
  merged ← Image_merge "RGB" images;
  Done (Dict.set composite_image_name merged composites_im_dict).

Definition enrich_over (names : list string) (paths : list string)
    (images_dict : list (string * image))
    (composites_im_dict : list (string * image))
  : outcome (list (string * image)) :=
  for_each names (enrich_body paths images_dict) composites_im_dict.

Definition enrich (paths : list string) (images_dict : list (string * image))
    (composites_im_dict : list (string * image))
  : outcome (list (string * image)) :=
  enrich_over (set_order (uip (Dict.keys images_dict))) paths images_dict
              composites_im_dict.

(** ["  "], two space characters *)
Definition two_spaces_pattern : list Str.atom := [Str.Chr " "; Str.Chr " "].

(** [re.sub("  ", " ", composite_image_name)] *)
Definition img_name (composite_image_name : string) : string :=
  Str.re_sub two_spaces_pattern " " composite_image_name.

Definition Enrichment_save_images (Working_directory : string)
    (composites_im_dict : list (string * image)) (fs : filesystem)
  : outcome filesystem :=
  let NewImageDir := Str.join Working_directory "4.Enrichment_images" in
  fs ← FS.prepare NewImageDir fs;
  for_each composites_im_dict
    (fun '(composite_image_name, image) fs =>
       FS.write NewImageDir (img_name composite_image_name) (Picture image) fs)
    fs.

(** ** Defect detection (DefectDetection_thermo.py) *)



Definition DefectDetection_save_images (Working_directory : string)
    (defect_images_dict : list (string * file)) (fs : filesystem)
  : outcome filesystem :=
  let NewImageDir := Str.join Working_directory "5.DefectDetected_images" in
  fs ← FS.prepare NewImageDir fs;
  for_each defect_images_dict
    (fun '(path, image) fs => FS.write NewImageDir (Str.basename path) image fs)
    fs.

(** ** The collaborator handoff of [load_images]

    The [try] block is the same, word for word, in the IQA, preprocessing,
    enrichment and defect-detection stages; they differ in [filetypes] and
    in the directory they start from. *)

Module Handoff.

(** What [load_images] of a collaborator may hand back. *)
Inductive pyvalue :=
| PyNone
| PyList (items : list string).

(** A collaborator, as far as the handoff looks at it: what calling its
    [load_images] does, and its [Image_directory] attribute if it has
    one. *)
Record collaborator := Collaborator {
  load_images_call : outcome pyvalue;
  Image_directory_attr : option string
}.

(** The two attributes of the stage that the handoff assigns. *)
Record stage := Stage {
  image_paths : pyvalue;
  Image_directory : string
}.

(** [glob.glob(join(Image_directory, filetype))] for a [filetype] of the
    form ["*.ext"]: the entries whose name ends in [".ext"] and does not
    start with a dot. *)
Definition glob (Image_directory filetype : string) (fs : filesystem)
  : list string :=
  let ext := match filetype with String _ e => e | EmptyString => "" end in
  Str.join Image_directory <$>
    filter (fun name => Str.endswith ext name && negb (Str.startswith "." name) = true)
           (FS.listdir Image_directory fs).

(** [self.image_paths.extend(more)] *)
Definition extend (v : pyvalue) (more : list string) : outcome pyvalue :=
  match v with
  | PyList items => Done (PyList (items ++ more))
  | PyNone => Raised AttributeError
  end.

(** The [try] block: the stage as the block leaves it, and the exception
    that ended it, if any. *)
Definition try_block (collab : option collaborator) (self : stage)
  : stage * option exn :=
  match collab with
  | None => (self, Some AttributeError)
  | Some c =>
      match load_images_call c with
      | Raised e => (self, Some e)
      | Done paths =>
          let self := {| image_paths := paths;
                         Image_directory := Image_directory self |} in
          match Image_directory_attr c with
          | None => (self, Some AttributeError)
          | Some d => ({| image_paths := image_paths self;
                          Image_directory := d |}, None)
          end
      end
  end.

(** The [except AttributeError] block; [typed] is what [input] returns. *)
Definition fallback (filetypes : list string) (typed : string)
    (fs : filesystem) (self : stage) : outcome stage :=
  let dir := if FS.exists_ (Image_directory self) fs
             then Image_directory self else typed in
  paths ← for_each filetypes (fun filetype v => extend v (glob dir filetype fs))
                   (image_paths self);
  if FS.exists_ dir fs
  then Done {| image_paths := paths; Image_directory := dir |}
  else Raised (SystemExit 1).

Definition load_images (filetypes : list string) (typed : string)
    (fs : filesystem) (collab : option collaborator) (self : stage)
  : outcome stage :=
  match try_block collab self with
  | (self, None) => Done self
  | (self, Some AttributeError) => fallback filetypes typed fs self
  | (_, Some e) => Raised e
  end.

Definition filetypes : list string := ["*.png"; "*.jpg"; "*.tiff"; "*.jpeg"].

End Handoff.

(** ** Concrete inputs *)

Definition one_pixel (v : Z) : image :=
  {| mode := "L"; size := (1, 1)%nat; bands := [[v]] |}.

(** Two samples, [A] and [B], in the directory of the acquired images:
    three measurements each. *)
Definition two_samples : list string :=
  (sample_files "W/1.Acquired_images" "A" "s.png" ["1Hz"; "2Hz"; "3Hz"]
   ++ sample_files "W/1.Acquired_images" "B" "s.png" ["1Hz"; "2Hz"; "3Hz"])%list.



(** Sample [A] with three measurements and sample [2] with two. *)
Definition shared_member : list string :=
  (sample_files "d" "A" "B.png" ["1Hz"; "2Hz"; "3Hz"]
   ++ sample_files "d" "2" "B.png" ["1Hz"; "3Hz"])%list.

Definition shared_member_fs : filesystem :=
  {[ "d" := {[ "A 1Hz B.png" := File (Picture (one_pixel 1));
               "A 2Hz B.png" := File (Picture (one_pixel 2));
               "A 3Hz B.png" := File (Picture (one_pixel 3));
               "2 1Hz B.png" := File (Picture (one_pixel 4));
               "2 3Hz B.png" := File (Picture (one_pixel 5)) ]} ]}.

(** BRISQUE scores under which only ["d/A 1Hz B.png"] misses the
    threshold. *)
Definition shared_member_score (path : string) : Q :=
  if String.eqb path "d/A 1Hz B.png" then 80 else 10.

(** ** The save step of the five stages, side by side *)

(** What one run of a stage hands to its [save_images]. *)
Inductive run :=
| AcquisitionRun (paths : list string)
| IQARun (composite_ls : list composite_dict)
| PreprocessRun (images_dict : list (string * pixels))
| EnrichmentRun (composites_im_dict : list (string * image))
| DefectDetectionRun (defect_images_dict : list (string * file)).

Definition save_images (Working_directory : string) (r : run)
    (fs : filesystem) : outcome filesystem :=
  match r with
  | AcquisitionRun paths => Acquisition_save_images Working_directory paths fs
  | IQARun composite_ls => IQA_save_images Working_directory composite_ls fs
  | PreprocessRun images_dict =>
      Preprocess_save_images Working_directory images_dict fs
  | EnrichmentRun composites_im_dict =>
      Enrichment_save_images Working_directory composites_im_dict fs
  | DefectDetectionRun defect_images_dict =>
      DefectDetection_save_images Working_directory defect_images_dict fs
  end.

(** [<N>.<StageName>_images] *)
Definition stage_directory (r : run) : string :=
  match r with
  | AcquisitionRun _ => "1.Acquired_images"
  | IQARun _ => "2.IQA_images"
  | PreprocessRun _ => "3.Preprocessed_images"
  | EnrichmentRun _ => "4.Enrichment_images"
  | DefectDetectionRun _ => "5.DefectDetected_images"
  end.

(** The paths of the groups whose three members all passed. *)
Definition passing_paths (composite_ls : list composite_dict) : list string :=
  concat ((fun d => if Composite_pass d then image_paths d else []) <$> composite_ls).

(** The paths (for the enrichment stage, the composite names) a run saves
    something for. *)
Definition sources (r : run) : list string :=
  match r with
  | AcquisitionRun paths => paths
  | IQARun composite_ls => passing_paths composite_ls
  | PreprocessRun images_dict => Dict.keys images_dict
  | EnrichmentRun composites_im_dict => Dict.keys composites_im_dict
  | DefectDetectionRun defect_images_dict => Dict.keys defect_images_dict
  end.

(** The file name a source is saved under. *)
Definition saved_name (r : run) (source : string) : string :=
  match r with
  | EnrichmentRun _ => img_name source
  | _ => Str.basename source
  end.

Definition saved_names (r : run) : list string := saved_name r <$> sources r.

(** [made r fs source f]: file [f] is what the run saves for [source], given
    the file system [fs] it starts from. *)
Definition made (r : run) (fs : filesystem) (source : string) (f : file) : Prop :=
  match r with
  | AcquisitionRun _ | IQARun _ => FS.read source fs = Done f
  | PreprocessRun images_dict =>
      exists image img, (source, image) ∈ images_dict /\ f = Picture img /\
        match image with
        | Arr a => fromarray_uint8 a = Done img
        | Pil i => img = i
        end
  | EnrichmentRun composites_im_dict =>
      exists image, (source, image) ∈ composites_im_dict /\ f = Picture image
  | DefectDetectionRun defect_images_dict => (source, f) ∈ defect_images_dict
  end.

(** Two acquisition runs on one working directory. *)
Definition two_runs_fs : filesystem :=
  {[ "src" := {[ "a 1Hz x.png" := File (Picture (one_pixel 1));
                 "b 1Hz x.png" := File (Picture (one_pixel 2)) ]} ]}.

Definition first_run : run := AcquisitionRun ["src/a 1Hz x.png"].
Definition second_run : run := AcquisitionRun ["src/b 1Hz x.png"].

Definition fs_of (o : outcome filesystem) : filesystem :=
  match o with
  | Done fs => fs
  | Raised _ => ∅
  end.

Definition after_first_run : filesystem :=
  fs_of (save_images "W" first_run two_runs_fs).

Definition after_second_run : filesystem :=
  fs_of (save_images "W" second_run after_first_run).

(** One merged image under its composite name. *)
Definition one_composite : run :=
  EnrichmentRun
    [("SampleA  SampleB.png",
      {| mode := "RGB"; size := (1, 1)%nat; bands := [[10]; [20]; [30]]%Z |})].

(** A single-channel image of the given size and pixel data. *)
Definition single_band (sz : nat * nat) (pixel_data : list Z) : image :=
  {| mode := "L"; size := sz; bands := [pixel_data] |}.

(** The group of name [n] has three members, found in this order, and
    [images_dict] holds for them single-channel images of one size with the
    pixel data [d0], [d1] and [d2]. *)
Definition triplet (paths : list string) (images_dict : list (string * image))
    (n : string) (sz : nat * nat) (d0 d1 d2 : list Z) : Prop :=
  exists p0 p1 p2,
    corresponding_paths paths n = Done [p0; p1; p2] /\
    Dict.get images_dict p0 = Some (single_band sz d0) /\
    Dict.get images_dict p1 = Some (single_band sz d1) /\
    Dict.get images_dict p2 = Some (single_band sz d2).

(** The three files of the example of the specification, 64 by 64 pixels of
    the constant values 10, 20 and 30. *)
Definition flat (v : Z) : image := single_band (64, 64)%nat (replicate 4096 v).

Definition sample_AB_paths : list string :=
  sample_files "w" "SampleA" "SampleB.png" ["1Hz"; "0_5Hz"; "2Hz"].

Definition sample_AB_images : list (string * image) :=
  [("w/SampleA 1Hz SampleB.png", flat 10);
   ("w/SampleA 0_5Hz SampleB.png", flat 20);
   ("w/SampleA 2Hz SampleB.png", flat 30)].

(** The two bounds of step 2, [Q1 - IQR*1.5] and [Q3 + IQR*1.5]. *)
Definition lower_bound (xs : list Q) : Q :=
  let Q1 := quantile xs (1 # 4) in
  let Q3 := quantile xs (3 # 4) in
  let IQR := (Q3 - Q1)%Q in
  (Q1 - IQR * (3 # 2))%Q.

Definition upper_bound (xs : list Q) : Q :=
  let Q1 := quantile xs (1 # 4) in
  let Q3 := quantile xs (3 # 4) in
  let IQR := (Q3 - Q1)%Q in
  (Q3 + IQR * (3 # 2))%Q.

(** A [uint8] image of five pixels in one row. *)
Definition five_pixels : ndarray :=
  {| dt := uint8; shape := [1; 5]%nat; data := [0; 1; 1; 2; 9]%Q |}.


(** The detections of an image that the threshold keeps. *)
Definition kept_detections (forward : image -> list detection) (threshold : Q)
    (img : image) : list detection :=
  filter (fun d => Qltb threshold (det_score d) = true) (forward img).

(** What [defect_detection] stores for a path, if anything. *)
Definition annotated_of (forward : image -> list detection) (threshold : Q)
    (fs : filesystem) (path : string) : option file :=
  match Image_open path fs with
  | Done img =>
      match kept_detections forward threshold img with
      | [] => None
      | kept => Some (Annotated img kept)
      end
  | Raised _ => None
  end.

(** Two composite images, and a model that finds one defect with score 0.9
    in the first and one with score 0.2 in the second. *)
Definition two_composites_fs : filesystem :=
  {[ "W/4.Enrichment_images" :=
       {[ "A s.png" := File (Picture (one_pixel 1));
          "B s.png" := File (Picture (one_pixel 2)) ]} ]}.


Definition example_model (img : image) : list detection :=
  if bool_decide (img = one_pixel 1)
  then [ {| pred_box := (0, 0, 1, 1)%Q; pred_class := 0; det_score := 9 # 10 |} ]
  else [ {| pred_box := (0, 0, 1, 1)%Q; pred_class := 0; det_score := 2 # 10 |} ].

(** A stage in its initial state, its directory on disk with one image. *)
Definition fresh_IQA : Handoff.stage :=
  {| Handoff.image_paths := Handoff.PyList [];
     Handoff.Image_directory := "W/1.Acquired_images" |}.

Definition acquired_fs : filesystem :=
  {[ "W/1.Acquired_images" := {[ "x.png" := File (Picture (one_pixel 1)) ]} ]}.

(** A collaborator whose [load_images] returns a list of paths and that has
    no [Image_directory] attribute. *)
Definition paths_only : Handoff.collaborator :=
  {| Handoff.load_images_call := Done (Handoff.PyList ["ext/A 1Hz B.png"]);
     Handoff.Image_directory_attr := None |}.

(** [Acquisition_3D()]: [load_images] returns [None], and there is no
    [Image_directory] attribute. *)
Definition Acquisition_3D : Handoff.collaborator :=
  {| Handoff.load_images_call := Done Handoff.PyNone;
     Handoff.Image_directory_attr := None |}.

(** [all p s]: every character of [s] satisfies [p]. *)
Fixpoint all_chars (p : ascii -> bool) (s : string) : bool :=
  match s with
  | EmptyString => true
  | String c s' => p c && all_chars p s'
  end.

(** A frequency as the file names write it: digits, then ["Hz"], or digits,
    an underscore, digits or none, then ["Hz"]. *)
Definition is_frequency_token (t : string) : Prop :=
  exists (d : ascii) (ds1 ds2 : string),
    Str.is_digit d = true /\ all_chars Str.is_digit ds1 = true /\
    all_chars Str.is_digit ds2 = true /\
    (t = String d ds1 +:+ "Hz" \/ t = String d ds1 +:+ "_" +:+ ds2 +:+ "Hz").

(** An identifier of a file name that the matcher reads as written: no
    digit, no blank, no separator. *)
Definition plain_identifier (s : string) : bool :=
  all_chars (fun c => negb (Str.is_digit c) && negb (Str.is_space c)
                      && negb (Ascii.eqb "/" c)) s.

(** * Properties *)

(** ** Loops *)

Lemma for_each_app {A S} (xs ys : list A) (body : A -> S -> outcome S) (s : S) :
  for_each (xs ++ ys)%list body s = (s' ← for_each xs body s; for_each ys body s').
Proof.
  revert s. induction xs as [|x xs IH]; intros s; simpl.
  - reflexivity.
  - destruct (body x s) as [s1|e]; simpl; [apply IH | reflexivity].
Qed.

Lemma for_each_ext {A S} (xs : list A) (f g : A -> S -> outcome S) (s : S) :
  (forall x s, x ∈ xs -> f x s = g x s) ->
  for_each xs f s = for_each xs g s.
Proof.
  revert s. induction xs as [|x xs IH]; intros s H; simpl; [reflexivity|].
  rewrite (H x s) by left.
  destruct (g x s); simpl; [|reflexivity].
  apply IH. intros y s' Hy. apply H. by right.
Qed.

Lemma elem_of_concat {A} (x : A) (ls : list (list A)) :
  x ∈ concat ls <-> exists l, x ∈ l /\ l ∈ ls.
Proof.
  rewrite list_elem_of_In, in_concat. split.
  - intros (l & Hl & Hx). exists l. by rewrite !list_elem_of_In.
  - intros (l & Hx & Hl). exists l. by rewrite <- !list_elem_of_In.
Qed.

(** A loop inside a loop visits the concatenation of the inner lists. *)
Lemma for_each_nested {A B S} (xs : list A) (inner : A -> list B)
    (body : B -> S -> outcome S) (s : S) :
  for_each xs (fun x s => for_each (inner x) body s) s
  = for_each (concat (inner <$> xs)) body s.
Proof.
  revert s. induction xs as [|x xs IH]; intros s; simpl; [reflexivity|].
  rewrite for_each_app.
  destruct (for_each (inner x) body s); simpl; [apply IH | reflexivity].
Qed.

(** ** The matcher *)

Example ungrouped_name_example :
  ungrouped_name "w/d/S 0_5Hz T.png" = "S  T.png".
Proof. reflexivity. Qed.

Example split_example :
  Str.re_split double_space_pattern "S  T.png" = ["S"; "T.png"].
Proof. reflexivity. Qed.

Example group_of_example :
  let paths := sample_files "w/d" "S" "T.png" ["1Hz"; "0_5Hz"; "2Hz"] in
  set_order (uip paths) = ["S  T.png"] /\ group_of paths "S  T.png" = Done paths.
Proof. vm_compute. split; reflexivity. Qed.

Lemma assert_three_done (ps qs : list string) :
  assert_three ps = Done qs <-> qs = ps /\ length ps = 3%nat.
Proof.
  unfold assert_three. destruct (Nat.eqb_spec (length ps) 3); split.
  - intros [= <-]. done.
  - intros [-> _]. done.
  - discriminate.
  - intros [_ ?]. done.
Qed.


(** The members of a group are paths of the input, in the order of the
    input. *)
Lemma corresponding_paths_sublist (paths : list string) (name : string)
    (ps : list string) :
  corresponding_paths paths name = Done ps -> sublist ps paths.
Proof.
  unfold corresponding_paths.
  set (first := filter _ paths).
  assert (Hsub : sublist first paths) by apply sublist_filter.
  destruct first as [|p first'] eqn:E.
  - intros [= <-]. apply sublist_nil_l.
  - destruct (_ !! 1%nat); [|discriminate].
    intros [= <-]. etrans; [apply sublist_filter | exact Hsub].
Qed.

Lemma group_of_three (paths : list string) (n : string) (ps : list string) :
  corresponding_paths paths n = Done ps -> length ps = 3%nat ->
  group_of paths n = Done ps.
Proof.
  intros H H3. unfold group_of. rewrite H. cbn.
  by apply assert_three_done.
Qed.


Lemma for_each_cons {A S} (x : A) (xs : list A) (body : A -> S -> outcome S)
    (s : S) :
  for_each (x :: xs) body s = (s' ← body x s; for_each xs body s').
Proof. reflexivity. Qed.



(** When every group has three members the loop visits every name. *)
Lemma grouped_loop_done {S} (rest : string -> list string -> S -> outcome S)
    (paths names : list string) (s0 : S) :
  (forall n ps s, n ∈ names -> corresponding_paths paths n = Done ps ->
                  length ps = 3%nat -> exists s', rest n ps s = Done s') ->
  (forall n, n ∈ names ->
     exists ps, corresponding_paths paths n = Done ps /\ length ps = 3%nat) ->
  exists s',
    for_each names (fun n s => ps ← group_of paths n; rest n ps s) s0 = Done s'.
Proof.
  revert s0. induction names as [|k names IH]; intros s0 Hrest Hall.
  - by exists s0.
  - destruct (Hall k) as (qs & Hk & H3); [left|].
    rewrite for_each_cons, (group_of_three _ _ _ Hk H3). cbn.
    destruct (Hrest k qs s0) as [s1 ->]; [left|done|done|]. cbn.
    apply IH.
    + intros n ps s Hn. apply Hrest. by right.
    + intros n Hn. apply Hall. by right.
Qed.

(** C1. The claim: a well-formed set of file names in which every sample
    has its three frequencies is split into groups of exactly three members,
    and two groups share no member.  The filters test whether the prefix and
    the suffix occur anywhere in the whole path: with the samples [A] and
    [B] in [W/1.Acquired_images], the prefix ["A"] also occurs in the
    directory name, the group of [A] takes all six files, and the stage
    stops with the assertion error whichever name it visits first. *)
Theorem matcher_takes_foreign_members_C1 :
  two_samples =
    ["W/1.Acquired_images/A 1Hz s.png"; "W/1.Acquired_images/A 2Hz s.png";
     "W/1.Acquired_images/A 3Hz s.png"; "W/1.Acquired_images/B 1Hz s.png";
     "W/1.Acquired_images/B 2Hz s.png"; "W/1.Acquired_images/B 3Hz s.png"] /\
  set_order (uip two_samples) = ["A  s.png"; "B  s.png"] /\
  corresponding_paths two_samples "A  s.png" = Done two_samples /\
  length two_samples = 6%nat /\
  (forall get_score thr,
     Asses_over ["A  s.png"; "B  s.png"] get_score thr two_samples
     = Raised (AssertionError two_samples) /\
     Asses_over ["B  s.png"; "A  s.png"] get_score thr two_samples
     = Raised (AssertionError two_samples)).
Proof.
  repeat split; vm_compute; reflexivity.
Qed.

(** ** The group check *)




(** ** The working directory *)

Lemma remove_done (d name : string) (fs fs' : filesystem) :
  FS.remove d name fs = Done fs' ->
  exists entries, fs !! d = Some entries /\ fs' = <[d := delete name entries]> fs.
Proof.
  unfold FS.remove. destruct (fs !! d) as [entries|]; [|discriminate].
  destruct (entries !! name) as [[f|]|]; try discriminate.
  intros [= <-]. eauto.
Qed.

Lemma remove_all_done (d : string) (names : list string)
    (fs fs' : filesystem) (entries : gmap string entry) :
  fs !! d = Some entries ->
  for_each names (FS.remove d) fs = Done fs' ->
  fs' = <[d := foldl (fun m k => delete k m) entries names]> fs.
Proof.
  revert fs entries. induction names as [|k names IH]; intros fs entries Hd.
  - intros [= <-]. cbn. by rewrite insert_id.
  - rewrite for_each_cons.
    destruct (FS.remove d k fs) as [fs1|e] eqn:E; [|discriminate].
    apply remove_done in E as (entries' & Hd' & ->).
    rewrite Hd in Hd'. injection Hd' as <-. cbn.
    intros H. apply IH with (entries := delete k entries) in H.
    + by rewrite insert_insert_eq in H.
    + by rewrite lookup_insert_eq.
Qed.

Lemma lookup_delete_all (names : list string) (entries : gmap string entry)
    (k : string) :
  foldl (fun m k => delete k m) entries names !! k
  = if decide (k ∈ names) then None else entries !! k.
Proof.
  revert entries. induction names as [|n names IH]; intros entries; cbn.
  - done.
  - rewrite IH. destruct (decide (k ∈ names)) as [Hin|Hin].
    + rewrite decide_True; [done | by right].
    + destruct (decide (k = n)) as [->|Hne].
      * rewrite lookup_delete_eq. rewrite decide_True; [done | left].
      * rewrite lookup_delete_ne by done.
        rewrite decide_False; [done|].
        intros [?|?]%elem_of_cons; done.
Qed.

(** The head of every [save_images] leaves the target directory in place
    and empty, whatever it held, and touches nothing else. *)
Lemma prepare_done (d : string) (fs fs' : filesystem) :
  FS.prepare d fs = Done fs' -> fs' = <[d := ∅]> fs.
Proof.
  unfold FS.prepare, FS.exists_, FS.makedirs, FS.listdir.
  case_bool_decide as Hex; [|by intros [= <-]].
  destruct Hex as [entries Hd]. rewrite Hd. cbn.
  intros H. apply (remove_all_done _ _ _ _ _ Hd) in H. subst fs'.
  f_equal. apply map_eq. intros k.
  rewrite lookup_delete_all, lookup_empty.
  case_decide as Hin; [done|].
  destruct (entries !! k) as [x|] eqn:Hk; [|done].
  exfalso. apply Hin. apply list_elem_of_fmap.
  exists (k, x). split; [done|]. by apply elem_of_map_to_list.
Qed.

Lemma write_done (d name : string) (f : file) (fs fs' : filesystem) :
  FS.write d name f fs = Done fs' ->
  exists entries,
    fs !! d = Some entries /\ fs' = <[d := <[name := File f]> entries]> fs.
Proof.
  unfold FS.write. destruct (fs !! d) as [entries|]; [|discriminate].
  destruct (String.eqb name ""); [discriminate|].
  destruct (entries !! name) as [[g|]|]; try discriminate;
    intros [= <-]; eauto.
Qed.

Lemma copyfile_done (path d : string) (fs fs' : filesystem) :
  FS.copyfile path d fs = Done fs' ->
  exists entries f,
    FS.read path fs = Done f /\ Str.dirname path <> d /\
    fs !! d = Some entries /\
    fs' = <[d := <[Str.basename path := File f]> entries]> fs.
Proof.
  unfold FS.copyfile. destruct (FS.read path fs) as [f|e] eqn:E; [|discriminate].
  cbn. destruct (String.eqb_spec (Str.dirname path) d) as [|Hne]; [discriminate|].
  intros H. apply write_done in H as (entries & Hd & ->). eauto 10.
Qed.

(** A file outside directory [d] reads the same wherever the two file
    systems agree outside [d]. *)
Lemma read_outside (d path : string) (fs1 fs2 : filesystem) :
  (forall d', d' <> d -> fs1 !! d' = fs2 !! d') ->
  Str.dirname path <> d ->
  FS.read path fs1 = FS.read path fs2.
Proof.
  intros Hagree Hne. unfold FS.read. by rewrite (Hagree _ Hne).
Qed.

(** A loop of writes into directory [d].  Each step puts one file, named
    after the item, into [d] and changes nothing else; [made] says which
    file an item gives.  At the end [d] holds what it held plus one name per
    item, every other directory is as it was, and each entry is either an
    old one or the file of an item of that name. *)
Lemma write_loop {A} (d : string) (name : A -> string)
    (made : A -> file -> Prop) (step : A -> filesystem -> outcome filesystem)
    (fs0 : filesystem) (items : list A) :
  (forall a fs1 fs2,
     a ∈ items -> (forall d', d' <> d -> fs1 !! d' = fs0 !! d') ->
     step a fs1 = Done fs2 ->
     exists entries f,
       made a f /\ fs1 !! d = Some entries /\
       fs2 = <[d := <[name a := File f]> entries]> fs1) ->
  forall (fs fs' : filesystem) (entries : gmap string entry),
    (forall d', d' <> d -> fs !! d' = fs0 !! d') ->
    fs !! d = Some entries ->
    for_each items step fs = Done fs' ->
    exists entries',
      fs' !! d = Some entries' /\
      (forall d', d' <> d -> fs' !! d' = fs0 !! d') /\
      (forall n, is_Some (entries' !! n) <->
                 is_Some (entries !! n) \/ n ∈ name <$> items) /\
      (forall n x, entries' !! n = Some x ->
                   entries !! n = Some x \/
                   exists a f, a ∈ items /\ name a = n /\ made a f /\ x = File f).
Proof.
  induction items as [|a items IH]; intros Hstep fs fs' entries Hagree Hd.
  - intros [= <-]. exists entries. repeat split; try done.
    + by left.
    + intros [?|Hin]; [done|]. cbn in Hin. by apply elem_of_nil in Hin.
    + by left.
  - rewrite for_each_cons.
    destruct (step a fs) as [fs1|e] eqn:E; [|discriminate]. cbn.
    destruct (Hstep a fs fs1) as (entries0 & f & Hmade & Hd0 & ->);
      [left|done|done|].
    rewrite Hd in Hd0. injection Hd0 as <-.
    intros Hrun.
    destruct (IH) with (fs := <[d := <[name a := File f]> entries]> fs)
                       (fs' := fs') (entries := <[name a := File f]> entries)
      as (entries' & Hd' & Hagree' & Hnames & Hfiles); try done.
    + intros b fs1 fs2 Hb. apply Hstep. by right.
    + intros d' Hne. rewrite lookup_insert_ne by done. by apply Hagree.
    + by rewrite lookup_insert_eq.
    + exists entries'. repeat split; try done.
      * intros Hn. apply Hnames in Hn as [Hn|Hn].
        -- destruct (decide (n = name a)) as [->|Hne].
           ++ right. cbn. left.
           ++ rewrite lookup_insert_ne in Hn by done. by left.
        -- right. cbn. by right.
      * intros [Hn|Hn]; apply Hnames.
        -- left. destruct (decide (n = name a)) as [->|Hne].
           ++ rewrite lookup_insert_eq. eauto.
           ++ by rewrite lookup_insert_ne.
        -- cbn in Hn. apply elem_of_cons in Hn as [->|Hn].
           ++ left. rewrite lookup_insert_eq. eauto.
           ++ by right.
      * intros n x Hx. apply Hfiles in Hx as [Hx|(b & g & Hb & Hnb & Hg & ->)].
        -- destruct (decide (n = name a)) as [->|Hne].
           ++ rewrite lookup_insert_eq in Hx. injection Hx as <-.
              right. exists a, f. repeat split; try done. left.
           ++ rewrite lookup_insert_ne in Hx by done. by left.
        -- right. exists b, g. repeat split; try done. by right.
Qed.

(** The loop of the IQA save step visits the paths of the passing groups. *)
Lemma IQA_save_loop (NewImageDir : string) (composite_ls : list composite_dict)
    (fs : filesystem) :
  for_each composite_ls
    (fun composite_dict fs =>
       if Bool.eqb (Composite_pass composite_dict) true
       then for_each (image_paths composite_dict)
                     (fun path => FS.copyfile path NewImageDir) fs
       else Done fs)
    fs
  = for_each (passing_paths composite_ls)
             (fun path => FS.copyfile path NewImageDir) fs.
Proof.
  unfold passing_paths. rewrite <- for_each_nested.
  apply for_each_ext. intros d s _.
  destruct (Composite_pass d); reflexivity.
Qed.

Lemma IQA_save_images_flat (Working_directory : string)
    (composite_ls : list composite_dict) (fs : filesystem) :
  IQA_save_images Working_directory composite_ls fs
  = (fs1 ← FS.prepare (Str.join Working_directory "2.IQA_images") fs;
     for_each (passing_paths composite_ls)
              (fun path => FS.copyfile path
                             (Str.join Working_directory "2.IQA_images")) fs1).
Proof.
  unfold IQA_save_images.
  destruct (FS.prepare _ fs); cbn; [|done]. apply IQA_save_loop.
Qed.

(** What a save step leaves behind: the stage directory holds one entry per
    saved name and no other, each entry is a file the run made, and every
    other directory is as it was. *)
Lemma save_images_directory (Working_directory : string) (r : run)
    (fs fs' : filesystem) :
  save_images Working_directory r fs = Done fs' ->
  exists entries,
    fs' !! Str.join Working_directory (stage_directory r) = Some entries /\
    (forall d', d' <> Str.join Working_directory (stage_directory r) ->
                fs' !! d' = fs !! d') /\
    (forall n, is_Some (entries !! n) <-> n ∈ saved_names r) /\
    (forall n x, entries !! n = Some x ->
       exists source f, source ∈ sources r /\ saved_name r source = n /\
                        made r fs source f /\ x = File f).
Proof.
  set (d := Str.join Working_directory (stage_directory r)).
  assert (Hfinish : forall (A : Type) (name : A -> string) (mk : A -> file -> Prop)
            (step : A -> filesystem -> outcome filesystem) (items : list A),
            (forall a fs1 fs2,
               a ∈ items -> (forall d', d' <> d -> fs1 !! d' = (<[d := ∅]> fs) !! d') ->
               step a fs1 = Done fs2 ->
               exists entries f,
                 mk a f /\ fs1 !! d = Some entries /\
                 fs2 = <[d := <[name a := File f]> entries]> fs1) ->
            (fs1 ← FS.prepare d fs; for_each items step fs1) = Done fs' ->
            exists entries,
              fs' !! d = Some entries /\
              (forall d', d' <> d -> fs' !! d' = fs !! d') /\
              (forall n, is_Some (entries !! n) <-> n ∈ name <$> items) /\
              (forall n x, entries !! n = Some x ->
                 exists a f, a ∈ items /\ name a = n /\ mk a f /\ x = File f)).
  { intros A name mk step items Hstep Hrun.
    destruct (FS.prepare d fs) as [fs1|e] eqn:Hprep; [|discriminate].
    apply prepare_done in Hprep as ->. cbn in Hrun.
    destruct (write_loop d name mk step (<[d := ∅]> fs) items Hstep
                (<[d := ∅]> fs) fs' ∅)
      as (entries & Hd & Hagree & Hnames & Hfiles); try done.
    { by rewrite lookup_insert_eq. }
    exists entries. split_and!; [done | | |].
    - intros d' Hne. rewrite Hagree by done. by rewrite lookup_insert_ne.
    - intros n. rewrite Hnames. split; [|by right].
      intros [[x Hx]|Hn]; [|done]. by rewrite lookup_empty in Hx.
    - intros n x Hx. apply Hfiles in Hx as [Hx|Hx]; [|done].
      by rewrite lookup_empty in Hx. }
  assert (Hcopy : forall paths : list string,
            forall a fs1 fs2,
              a ∈ paths -> (forall d', d' <> d -> fs1 !! d' = (<[d := ∅]> fs) !! d') ->
              FS.copyfile a d fs1 = Done fs2 ->
              exists entries f,
                FS.read a fs = Done f /\ fs1 !! d = Some entries /\
                fs2 = <[d := <[Str.basename a := File f]> entries]> fs1).
  { intros paths a fs1 fs2 _ Hagree Hcp.
    apply copyfile_done in Hcp as (entries & f & Hread & Hne & Hd & ->).
    exists entries, f. split_and!; try done.
    rewrite <- Hread. symmetry. apply read_outside with (d := d); [|done].
    intros d' Hd'. rewrite Hagree by done. by rewrite lookup_insert_ne. }
  destruct r as [paths|composite_ls|images_dict|composites|defects];
    unfold save_images, saved_names, sources, saved_name, made.
  - unfold Acquisition_save_images. intros Hrun.
    apply (Hfinish string Str.basename (fun a f => FS.read a fs = Done f)) in Hrun.
    + destruct Hrun as (entries & ? & ? & Hnames & Hfiles). exists entries.
      split_and!; [done | done | exact Hnames | exact Hfiles].
    + apply Hcopy.
  - rewrite IQA_save_images_flat. intros Hrun.
    apply (Hfinish string Str.basename (fun a f => FS.read a fs = Done f)) in Hrun.
    + destruct Hrun as (entries & ? & ? & Hnames & Hfiles). exists entries.
      split_and!; [done | done | exact Hnames | exact Hfiles].
    + apply Hcopy.
  - unfold Preprocess_save_images. intros Hrun.
    apply (Hfinish (string * pixels)%type (fun a => Str.basename a.1)
             (fun a f => exists img, f = Picture img /\
                match a.2 with
                | Arr arr => fromarray_uint8 arr = Done img
                | Pil i => img = i
                end)) in Hrun.
    + destruct Hrun as (entries & ? & ? & Hnames & Hfiles). exists entries.
      split_and!; [done | done | |].
      * intros n. rewrite Hnames. unfold Dict.keys.
        by rewrite <- list_fmap_compose.
      * intros n x Hx. apply Hfiles in Hx
          as ([path image] & f & Hin & Hname & (img & -> & Himg) & ->).
        exists path, (Picture img). split_and!; try done.
        -- unfold Dict.keys. apply list_elem_of_fmap. by exists (path, image).
        -- exists image, img. done.
    + intros [path image] fs1 fs2 _ _ Hstep. cbn in Hstep.
      destruct image as [i|arr].
      * cbn in Hstep. apply write_done in Hstep as (entries & Hd & ->).
        exists entries, (Picture i). split_and!; try done. by exists i.
      * destruct (fromarray_uint8 arr) as [img|e] eqn:E; [|discriminate].
        cbn in Hstep. apply write_done in Hstep as (entries & Hd & ->).
        exists entries, (Picture img). split_and!; try done. by exists img.
  - unfold Enrichment_save_images. intros Hrun.
    apply (Hfinish (string * image)%type (fun a => img_name a.1)
             (fun a f => f = Picture a.2)) in Hrun.
    + destruct Hrun as (entries & ? & ? & Hnames & Hfiles). exists entries.
      split_and!; [done | done | |].
      * intros n. rewrite Hnames. unfold Dict.keys.
        by rewrite <- list_fmap_compose.
      * intros n x Hx. apply Hfiles in Hx
          as ([key image] & f & Hin & Hname & -> & ->).
        exists key, (Picture image). split_and!; try done.
        -- unfold Dict.keys. apply list_elem_of_fmap. by exists (key, image).
        -- by exists image.
    + intros [key image] fs1 fs2 _ _ Hstep. cbn in Hstep.
      apply write_done in Hstep as (entries & Hd & ->).
      exists entries, (Picture image). done.
  - unfold DefectDetection_save_images. intros Hrun.
    apply (Hfinish (string * file)%type (fun a => Str.basename a.1)
             (fun a f => f = a.2)) in Hrun.
    + destruct Hrun as (entries & ? & ? & Hnames & Hfiles). exists entries.
      split_and!; [done | done | |].
      * intros n. rewrite Hnames. unfold Dict.keys.
        by rewrite <- list_fmap_compose.
      * intros n x Hx. apply Hfiles in Hx
          as ([path image] & f & Hin & Hname & -> & ->).
        exists path, image. split_and!; try done.
        unfold Dict.keys. apply list_elem_of_fmap. by exists (path, image).
    + intros [path image] fs1 fs2 _ _ Hstep. cbn in Hstep.
      apply write_done in Hstep as (entries & Hd & ->).
      exists entries, image. done.
Qed.

(** C5. Two runs of the save step of one stage on the same working
    directory, the second on the file system the first left: the stage
    directory then holds exactly the names the second run saves, each entry
    is a file the second run made, and a name that only the first run saved
    is gone. *)
Theorem save_replaces_C5 (Working_directory : string) (first second : run)
    (fs0 fs1 fs2 : filesystem) :
  stage_directory first = stage_directory second ->
  save_images Working_directory first fs0 = Done fs1 ->
  save_images Working_directory second fs1 = Done fs2 ->
  exists entries1 entries2,
    fs1 !! Str.join Working_directory (stage_directory second) = Some entries1 /\
    (forall n, is_Some (entries1 !! n) <-> n ∈ saved_names first) /\
    fs2 !! Str.join Working_directory (stage_directory second) = Some entries2 /\
    (forall n, is_Some (entries2 !! n) <-> n ∈ saved_names second) /\
    (forall n, n ∈ saved_names first -> n ∉ saved_names second ->
               entries2 !! n = None) /\
    (forall n x, entries2 !! n = Some x ->
       exists source f, source ∈ sources second /\
                        saved_name second source = n /\
                        made second fs1 source f /\ x = File f).
Proof.
  intros Hsame H1 H2.
  apply save_images_directory in H1 as (entries1 & Hd1 & _ & Hnames1 & _).
  apply save_images_directory in H2 as (entries2 & Hd2 & _ & Hnames2 & Hfiles2).
  rewrite Hsame in Hd1.
  exists entries1, entries2. split_and!; try done.
  intros n _ Hnot. apply eq_None_not_Some. by rewrite Hnames2.
Qed.

Lemma save_replaces_C5_witness :
  exists entries1 entries2,
    after_first_run !! "W/1.Acquired_images" = Some entries1 /\
    (forall n, is_Some (entries1 !! n) <-> n ∈ ["a 1Hz x.png"]) /\
    after_second_run !! "W/1.Acquired_images" = Some entries2 /\
    (forall n, is_Some (entries2 !! n) <-> n ∈ ["b 1Hz x.png"]) /\
    (forall n, n ∈ ["a 1Hz x.png"] -> n ∉ ["b 1Hz x.png"] ->
               entries2 !! n = None) /\
    (forall n x, entries2 !! n = Some x ->
       exists source f, source ∈ ["src/b 1Hz x.png"] /\
                        Str.basename source = n /\
                        FS.read source after_first_run = Done f /\ x = File f).
Proof.
  apply (save_replaces_C5 "W" first_run second_run two_runs_fs
           after_first_run after_second_run).
  - reflexivity.
  - vm_compute. reflexivity.
  - vm_compute. reflexivity.
Defined.

(** ** File names *)

Lemma two_spaces_match_len (s : string) :
  Str.match_len two_spaces_pattern s
  = if Str.startswith "  " s then Some 2%nat else None.
Proof.
  unfold Str.match_len, two_spaces_pattern.
  destruct s as [|c [|c2 r]]; cbn [Str.match_here Str.startswith];
    try reflexivity.
  - by destruct (Ascii.eqb " " c).
  - destruct (Ascii.eqb " " c); [|reflexivity].
    destruct (Ascii.eqb " " c2); cbn [andb String.length]; [|reflexivity].
    f_equal. lia.
Qed.

Lemma img_name_unchanged (s : string) :
  Str.contains "  " s = false -> img_name s = s.
Proof.
  unfold img_name, Str.re_sub.
  induction s as [|c s IH]; [reflexivity|].
  intros H. cbn [Str.contains] in H. apply orb_false_elim in H as [Hhere Hrest].
  cbn [Str.sub_from]. rewrite two_spaces_match_len, Hhere.
  f_equal. by apply IH.
Qed.

(** A name that is a prefix, two blanks and a suffix, with two adjacent
    blanks nowhere else, is saved as the prefix, one blank and the
    suffix. *)
Lemma img_name_collapses (prefix suffix : string) :
  Str.contains "  " (prefix +:+ " ") = false ->
  Str.contains "  " suffix = false ->
  img_name (prefix +:+ "  " +:+ suffix) = prefix +:+ " " +:+ suffix.
Proof.
  intros Hp Hs. induction prefix as [|c p IH].
  - unfold img_name, Str.re_sub.
    change ("" +:+ "  " +:+ suffix) with (String " " (String " " suffix)).
    cbn [Str.sub_from]. rewrite two_spaces_match_len.
    change (Str.startswith "  " (String " " (String " " suffix))) with true.
    cbn iota. change ("" +:+ " " +:+ suffix) with (" " +:+ suffix).
    f_equal. by apply img_name_unchanged.
  - change (String c p +:+ " ") with (String c (p +:+ " ")) in Hp.
    cbn [Str.contains] in Hp. apply orb_false_elim in Hp as [Hhere Hrest].
    change (String c p +:+ "  " +:+ suffix)
      with (String c (p +:+ "  " +:+ suffix)).
    change (String c p +:+ " " +:+ suffix)
      with (String c (p +:+ " " +:+ suffix)).
    unfold img_name, Str.re_sub. cbn [Str.sub_from].
    rewrite two_spaces_match_len.
    assert (Hsame : Str.startswith "  " (String c (p +:+ "  " +:+ suffix))
                    = Str.startswith "  " (String c (p +:+ " "))).
    { cbn [Str.startswith].
      destruct (Ascii.eqb " " c); [|reflexivity]. cbn [andb].
      destruct p; reflexivity. }
    rewrite Hsame, Hhere. f_equal. by apply IH.
Qed.

(** C8. After the save step of a stage its directory holds exactly these
    names: for the enrichment stage, each composite name as
    [re.sub("  ", " ", name)] rewrites it, which for a name made of a
    prefix, the two blanks left by the frequency and a suffix is the prefix,
    one blank and the suffix; for every other stage, the base name of each
    source path. *)
Theorem saved_file_names_C8 (Working_directory : string) (r : run)
    (fs fs' : filesystem) :
  save_images Working_directory r fs = Done fs' ->
  exists entries,
    fs' !! Str.join Working_directory (stage_directory r) = Some entries /\
    (forall n, is_Some (entries !! n) <->
       match r with
       | EnrichmentRun composites_im_dict =>
           exists name, name ∈ Dict.keys composites_im_dict /\
                        n = Str.re_sub two_spaces_pattern " " name
       | _ => exists path, path ∈ sources r /\ n = Str.basename path
       end) /\
    (forall prefix suffix,
       Str.contains "  " (prefix +:+ " ") = false ->
       Str.contains "  " suffix = false ->
       Str.re_sub two_spaces_pattern " " (prefix +:+ "  " +:+ suffix)
       = prefix +:+ " " +:+ suffix).
Proof.
  intros Hrun.
  apply save_images_directory in Hrun as (entries & Hd & _ & Hnames & _).
  exists entries. split_and!; [done | | exact img_name_collapses].
  intros n. rewrite Hnames. unfold saved_names.
  rewrite list_elem_of_fmap.
  destruct r; cbn [saved_name sources]; split;
    intros (x & H1 & H2); exists x; done.
Qed.

Lemma saved_file_names_C8_witness :
  exists entries,
    fs_of (save_images "W" one_composite ∅) !! "W/4.Enrichment_images"
    = Some entries /\
    (forall n, is_Some (entries !! n) <->
       exists name, name ∈ ["SampleA  SampleB.png"] /\
                    n = Str.re_sub two_spaces_pattern " " name) /\
    (forall prefix suffix,
       Str.contains "  " (prefix +:+ " ") = false ->
       Str.contains "  " suffix = false ->
       Str.re_sub two_spaces_pattern " " (prefix +:+ "  " +:+ suffix)
       = prefix +:+ " " +:+ suffix).
Proof.
  apply (saved_file_names_C8 "W" one_composite ∅
           (fs_of (save_images "W" one_composite ∅))).
  vm_compute. reflexivity.
Defined.

Example enrichment_file_name :
  fs_of (save_images "W" one_composite ∅) !! "W/4.Enrichment_images"
  ≫= (fun entries => entries !! "SampleA SampleB.png")
  = Some (File (Picture {| mode := "RGB"; size := (1, 1)%nat;
                           bands := [[10]; [20]; [30]]%Z |})).
Proof. vm_compute. reflexivity. Qed.

(** ** The quality gate *)

Lemma Qltb_lt (a b : Q) : Qltb a b = true <-> (a < b)%Q.
Proof.
  unfold Qltb. rewrite negb_true_iff, <- not_true_iff_false, Qle_bool_iff.
  split; [apply Qnot_le_lt | apply Qlt_not_le].
Qed.

Lemma Qltb_ge (a b : Q) : Qltb a b = false <-> (b <= a)%Q.
Proof.
  unfold Qltb. by rewrite negb_false_iff, Qle_bool_iff.
Qed.

Lemma forallb_eqb_true (l : list bool) :
  forallb (fun p => Bool.eqb p true) l = forallb id l.
Proof. induction l as [|[] l IH]; cbn; [done | exact IH | done]. Qed.

Lemma Asses_loop_records (get_score : string -> Q) (thr : Q)
    (paths names : list string) (acc ls : list composite_dict) :
  for_each names (Asses_body get_score thr paths) acc = Done ls ->
  exists new, ls = (acc ++ new)%list /\
              Forall2 (recorded get_score thr paths) names new.
Proof.
  revert acc. induction names as [|n names IH]; intros acc.
  - intros [= <-]. exists []. by rewrite app_nil_r.
  - rewrite for_each_cons.
    destruct (Asses_body get_score thr paths n acc) as [acc'|e] eqn:Hb;
      [|discriminate].
    unfold Asses_body in Hb.
    destruct (group_of paths n) as [ps|e] eqn:Hg; [|discriminate].
    cbn in Hb. injection Hb as <-. cbn.
    intros H. apply IH in H as (new & -> & Hnew).
    eexists (_ :: new). split; [by rewrite <- app_assoc|].
    constructor; [|done].
    unfold group_of in Hg.
    destruct (corresponding_paths paths n) as [qs|e] eqn:Hc; [|discriminate].
    cbn in Hg. apply assert_three_done in Hg as [-> H3].
    split_and!; cbn; try done.
    + apply list_fmap_ext. intros _ s _. by destruct (Qltb s thr).
    + apply forallb_eqb_true.
Qed.

(** The records of a run of [Asses] that returns: one per name visited, in
    that order; an image passed if and only if its score is below the
    threshold, and a composite passes if and only if its three images do. *)
Lemma Asses_records (get_score : string -> Q) (thr : Q)
    (paths names : list string) (ls : list composite_dict) :
  Asses_over names get_score thr paths = Done ls ->
  Forall2 (recorded get_score thr paths) names ls.
Proof.
  intros H. apply Asses_loop_records in H as (new & -> & H). exact H.
Qed.

Lemma recorded_pass (get_score : string -> Q) (thr : Q) (paths : list string)
    (n : string) (d : composite_dict) :
  recorded get_score thr paths n d ->
  (forall i path, image_paths d !! i = Some path ->
     scores d !! i = Some (get_score path) /\
     exists p, passed d !! i = Some p /\
               (p = true <-> (get_score path < thr)%Q)) /\
  (Composite_pass d = true <-> Forall (fun p => p = true) (passed d)) /\
  (Composite_pass d = true <->
   forall path, path ∈ image_paths d -> (get_score path < thr)%Q).
Proof.
  intros (_ & _ & _ & Hs & Hp & Hc). split_and!.
  - intros i path Hi. rewrite Hp, Hs, !list_lookup_fmap, Hi. cbn.
    split; [done|]. eexists. split; [done|]. apply Qltb_lt.
  - rewrite Hc, forallb_forall, Forall_forall.
    split; intros H p Hin.
    + apply list_elem_of_In in Hin. by apply H in Hin.
    + apply list_elem_of_In in Hin. by apply H in Hin.
  - rewrite Hc, Hp, Hs, forallb_forall. split.
    + intros H path Hin. apply Qltb_lt.
      apply (H (Qltb (get_score path) thr)).
      apply list_elem_of_In. rewrite <- list_fmap_compose.
      apply list_elem_of_fmap. by exists path.
    + intros H p Hin. apply list_elem_of_In in Hin.
      rewrite <- list_fmap_compose in Hin.
      apply list_elem_of_fmap in Hin as (path & -> & Hin). cbn.
      apply Qltb_lt. by apply H.
Qed.

(** What the IQA save step copies: a file name is in [2.IQA_images]
    afterwards if and only if it is the base name of a path of a group that
    passed. *)
Lemma IQA_saves_passing_groups (Working_directory : string)
    (composite_ls : list composite_dict) (fs fs' : filesystem) :
  IQA_save_images Working_directory composite_ls fs = Done fs' ->
  exists entries,
    fs' !! Str.join Working_directory "2.IQA_images" = Some entries /\
    forall n, is_Some (entries !! n) <->
      exists d path, d ∈ composite_ls /\ Composite_pass d = true /\
                     path ∈ image_paths d /\ Str.basename path = n.
Proof.
  intros H.
  apply (save_images_directory Working_directory (IQARun composite_ls)) in H
    as (entries & Hd & _ & Hnames & _).
  exists entries. split; [done|]. intros n. rewrite Hnames.
  unfold saved_names, sources, saved_name, passing_paths.
  rewrite list_elem_of_fmap. split.
  - intros (path & -> & Hin).
    apply elem_of_concat in Hin as (l & Hpath & Hl).
    apply list_elem_of_fmap in Hl as (d & -> & Hd').
    destruct (Composite_pass d) eqn:E; [|by apply elem_of_nil in Hpath].
    exists d, path. done.
  - intros (d & path & Hd' & Hpass & Hpath & <-).
    exists path. split; [done|].
    apply elem_of_concat. exists (image_paths d). split; [done|].
    apply list_elem_of_fmap. exists d. by rewrite Hpass.
Qed.

(** C3. The claim: an image passes iff its score is below the threshold,
    a composite passes iff its three images do, and no member of a group
    with a score at or above the threshold reaches [2.IQA_images].  The
    first two parts are [Asses_records] and [recorded_pass].  The third
    fails here: sample [2] has two files of its own, its group takes
    ["d/A 2Hz B.png"] as third member because that path contains ["2"] and
    ["B.png"], and passes; the group of [A] fails on ["d/A 1Hz B.png"], and
    its member ["A 2Hz B.png"] is copied all the same. *)
Theorem gate_copies_member_of_failed_group_C3 :
  exists ls fs' failed entries,
    Asses shared_member_score default_brisque_threshold shared_member = Done ls /\
    IQA_save_images "W" ls shared_member_fs = Done fs' /\
    failed ∈ ls /\
    composite_name failed = "A  B.png" /\
    scores failed = [80; 10; 10]%Q /\
    Composite_pass failed = false /\
    "d/A 2Hz B.png" ∈ image_paths failed /\
    fs' !! "W/2.IQA_images" = Some entries /\
    entries !! "A 2Hz B.png" = Some (File (Picture (one_pixel 2))).
Proof.
  eexists _, _, _, _.
  split; [vm_compute; reflexivity|].
  split; [vm_compute; reflexivity|].
  split; [left|].
  split; [reflexivity|].
  split; [reflexivity|].
  split; [reflexivity|].
  split; [right; left|].
  split; vm_compute; reflexivity.
Qed.

(** ** Dictionaries *)

Lemma get_set_eq {V} (k : string) (v : V) (d : list (string * V)) :
  Dict.get (Dict.set k v d) k = Some v.
Proof.
  induction d as [|[k' v'] d IH]; cbn.
  - by rewrite String.eqb_refl.
  - destruct (String.eqb_spec k k') as [->|Hne]; cbn.
    + by rewrite String.eqb_refl.
    + destruct (String.eqb_spec k k'); [done | exact IH].
Qed.

Lemma get_set_ne {V} (k k' : string) (v : V) (d : list (string * V)) :
  k <> k' -> Dict.get (Dict.set k v d) k' = Dict.get d k'.
Proof.
  intros Hne. induction d as [|[k0 v0] d IH]; cbn.
  - destruct (String.eqb_spec k' k); [congruence | done].
  - destruct (String.eqb_spec k k0) as [->|Hne0]; cbn.
    + destruct (String.eqb_spec k' k0); [congruence | done].
    + destruct (String.eqb_spec k' k0); [done | exact IH].
Qed.

Lemma get_None_keys {V} (k : string) (d : list (string * V)) :
  Dict.get d k = None <-> k ∉ Dict.keys d.
Proof.
  unfold Dict.keys. induction d as [|[k' v'] d IH]; cbn.
  - split; [intros _ H; by apply elem_of_nil in H | done].
  - rewrite not_elem_of_cons.
    destruct (String.eqb_spec k k') as [->|Hne].
    + split; [discriminate | intros [Hk _]; by destruct Hk].
    + rewrite IH. split; [by intros ? | by intros [_ ?]].
Qed.

Lemma keys_set_fresh {V} (k : string) (v : V) (d : list (string * V)) :
  Dict.get d k = None -> Dict.keys (Dict.set k v d) = (Dict.keys d ++ [k])%list.
Proof.
  unfold Dict.keys. induction d as [|[k' v'] d IH]; cbn; [done|].
  destruct (String.eqb_spec k k') as [->|Hne]; [discriminate|].
  intros H. cbn. f_equal. by apply IH.
Qed.

(** ** The channel merge *)

Lemma Image_merge_three (sz : nat * nat) (d0 d1 d2 : list Z) :
  Image_merge "RGB" [Some (single_band sz d0); Some (single_band sz d1);
                     Some (single_band sz d2)]
  = Done {| mode := "RGB"; size := sz; bands := [d0; d1; d2] |}.
Proof.
  unfold Image_merge, single_band. cbn.
  rewrite !bool_decide_eq_true_2 by done. reflexivity.
Qed.

Lemma triplet_body (paths : list string) (images_dict : list (string * image))
    (n : string) (sz : nat * nat) (d0 d1 d2 : list Z)
    (acc : list (string * image)) :
  triplet paths images_dict n sz d0 d1 d2 ->
  enrich_body paths images_dict n acc
  = Done (Dict.set n {| mode := "RGB"; size := sz; bands := [d0; d1; d2] |} acc).
Proof.
  intros (p0 & p1 & p2 & Hc & H0 & H1 & H2).
  unfold enrich_body. rewrite Hc. cbn [mbind outcome_bind fmap list_fmap].
  rewrite H0, H1, H2, Image_merge_three. reflexivity.
Qed.

Lemma enrich_loop (paths : list string) (images_dict : list (string * image))
    (names : list string) :
  NoDup names ->
  (forall n, n ∈ names ->
     exists sz d0 d1 d2, triplet paths images_dict n sz d0 d1 d2) ->
  forall acc : list (string * image),
    (forall n, n ∈ names -> Dict.get acc n = None) ->
    exists composites,
      for_each names (enrich_body paths images_dict) acc = Done composites /\
      Dict.keys composites = (Dict.keys acc ++ names)%list /\
      (forall k, k ∉ names -> Dict.get composites k = Dict.get acc k) /\
      (forall n sz d0 d1 d2,
         n ∈ names -> triplet paths images_dict n sz d0 d1 d2 ->
         Dict.get composites n
         = Some {| mode := "RGB"; size := sz; bands := [d0; d1; d2] |}).
Proof.
  induction names as [|n names IH]; intros Hnodup Hall acc Hfresh.
  - exists acc. split_and!; try done.
    + by rewrite app_nil_r.
    + intros n sz d0 d1 d2 Hn. by apply elem_of_nil in Hn.
  - apply NoDup_cons in Hnodup as [Hn Hnodup].
    destruct (Hall n) as (sz & d0 & d1 & d2 & Ht); [left|].
    rewrite for_each_cons, (triplet_body _ _ _ _ _ _ _ acc Ht). cbn.
    destruct (IH Hnodup) with (acc := Dict.set n {| mode := "RGB"; size := sz;
                                                     bands := [d0; d1; d2] |} acc)
      as (composites & Hrun & Hkeys & Hother & Hvalues).
    + intros m Hm. apply Hall. by right.
    + intros m Hm. rewrite get_set_ne by (intros ->; done).
      apply Hfresh. by right.
    + exists composites. split_and!; try done.
      * rewrite Hkeys, keys_set_fresh by (apply Hfresh; left).
        by rewrite <- app_assoc.
      * intros k Hk. apply not_elem_of_cons in Hk as [Hne Hk].
        rewrite Hother by done. by apply get_set_ne.
      * intros m sz' e0 e1 e2 Hm Ht'.
        apply elem_of_cons in Hm as [->|Hm]; [|by apply Hvalues].
        rewrite Hother by done.
        pose proof (triplet_body _ _ _ _ _ _ _ acc Ht') as Hb.
        rewrite (triplet_body _ _ _ _ _ _ _ acc Ht) in Hb.
        injection Hb as Hb. rewrite Hb. apply get_set_eq.
Qed.

(** C4. When every group visited is a triplet of single-channel images of
    one size, [enrich] returns one image per group and no other; the image
    of a group has mode RGB and the size of its sources, and its three
    channels are, in the order in which the members were matched, the pixel
    data of the first, the second and the third member, unchanged. *)
Theorem merge_keeps_channels_C4 (paths : list string)
    (images_dict : list (string * image)) (names : list string) :
  NoDup names ->
  (forall n, n ∈ names ->
     exists sz d0 d1 d2, triplet paths images_dict n sz d0 d1 d2) ->
  exists composites,
    enrich_over names paths images_dict [] = Done composites /\
    Dict.keys composites = names /\
    (forall n sz d0 d1 d2,
       n ∈ names -> triplet paths images_dict n sz d0 d1 d2 ->
       Dict.get composites n
       = Some {| mode := "RGB"; size := sz; bands := [d0; d1; d2] |} /\
       length (bands {| mode := "RGB"; size := sz; bands := [d0; d1; d2] |})
       = 3%nat).
Proof.
  intros Hnodup Hall.
  destruct (enrich_loop paths images_dict names Hnodup Hall [])
    as (composites & Hrun & Hkeys & _ & Hvalues); [done|].
  exists composites. split_and!; try done.
  intros n sz d0 d1 d2 Hn Ht. split; [by apply Hvalues | reflexivity].
Qed.

Lemma merge_keeps_channels_C4_witness :
  exists composites,
    enrich_over (set_order (uip (Dict.keys sample_AB_images))) sample_AB_paths
                sample_AB_images [] = Done composites /\
    Dict.keys composites = set_order (uip (Dict.keys sample_AB_images)) /\
    (forall n sz d0 d1 d2,
       n ∈ set_order (uip (Dict.keys sample_AB_images)) ->
       triplet sample_AB_paths sample_AB_images n sz d0 d1 d2 ->
       Dict.get composites n
       = Some {| mode := "RGB"; size := sz; bands := [d0; d1; d2] |} /\
       length (bands {| mode := "RGB"; size := sz; bands := [d0; d1; d2] |})
       = 3%nat).
Proof.
  apply (merge_keeps_channels_C4 sample_AB_paths sample_AB_images
           (set_order (uip (Dict.keys sample_AB_images)))).
  - vm_compute. apply NoDup_singleton.
  - intros n Hn. vm_compute in Hn. apply list_elem_of_singleton in Hn as ->.
    exists (64, 64)%nat, (replicate 4096 10%Z), (replicate 4096 20%Z),
           (replicate 4096 30%Z).
    exists "w/SampleA 1Hz SampleB.png", "w/SampleA 0_5Hz SampleB.png",
           "w/SampleA 2Hz SampleB.png".
    split_and!; vm_compute; reflexivity.
Defined.

(** The example of the specification, run: one file [SampleA SampleB.png]
    whose channels are the three sources in the order of the paths. *)
Example enrich_sample_AB :
  (composites ← enrich sample_AB_paths sample_AB_images [];
   save_images "W" (EnrichmentRun composites) ∅)
  = Done {[ "W/4.Enrichment_images" :=
              {[ "SampleA SampleB.png" :=
                   File (Picture {| mode := "RGB"; size := (64, 64)%nat;
                                    bands := [replicate 4096 10%Z;
                                              replicate 4096 20%Z;
                                              replicate 4096 30%Z] |}) ]} ]}.
Proof. vm_compute. reflexivity. Qed.

(** ** Quartiles *)

Lemma nth_sorted (l : list Q) (i j : nat) :
  StronglySorted Qle l -> (i <= j)%nat -> (j < length l)%nat ->
  (nth i l 0 <= nth j l 0)%Q.
Proof.
  intros Hs. revert i j. induction Hs as [|x l Hs IH Hx]; intros i j Hij Hj.
  - cbn in Hj. lia.
  - destruct i as [|i], j as [|j]; cbn [nth].
    + apply Qle_refl.
    + rewrite Forall_forall in Hx. apply Hx.
      apply list_elem_of_In, nth_In. cbn in Hj. lia.
    + lia.
    + apply IH; [lia | cbn in Hj; lia].
Qed.

(** The value of [quantile] lies between its two neighbours in the sorted
    array, and the virtual index determines it. *)
Lemma quantile_bounds (xs : list Q) (q : Q) :
  (0 <= q)%Q -> (q <= 1)%Q -> xs <> [] ->
  let sorted := merge_sort Qle xs in
  let n := length sorted in
  let vi := (q * (inject_Z (Z.of_nat n) - 1))%Q in
  let previous := Z.to_nat (Qfloor vi) in
  let next := Nat.min (previous + 1) (n - 1) in
  (previous <= n - 1)%nat /\
  (nth previous sorted 0 <= quantile xs q)%Q /\
  (quantile xs q <= nth next sorted 0)%Q.
Proof.
  intros Hq0 Hq1 Hne sorted n vi previous next.
  assert (Hsorted : StronglySorted Qle sorted)
    by apply (StronglySorted_merge_sort Qle).
  assert (Hn : (1 <= n)%nat).
  { unfold n, sorted. rewrite (Permutation_length (merge_sort_Permutation Qle xs)).
    destruct xs; [done | cbn; lia]. }
  assert (Hvi0 : (0 <= vi)%Q).
  { unfold vi. apply Qmult_le_0_compat; [done|].
    assert (1 <= inject_Z (Z.of_nat n))%Q.
    { change 1%Q with (inject_Z 1). rewrite <- Zle_Qle. lia. }
    lra. }
  assert (Hvi1 : (vi <= inject_Z (Z.of_nat n) - 1)%Q).
  { unfold vi. assert (0 <= inject_Z (Z.of_nat n) - 1)%Q.
    { assert (1 <= inject_Z (Z.of_nat n))%Q; [|lra].
      change 1%Q with (inject_Z 1). rewrite <- Zle_Qle. lia. }
    nra. }
  assert (Hf0 : (0 <= Qfloor vi)%Z).
  { change 0%Z with (Qfloor 0). by apply Qfloor_resp_le. }
  assert (Hf1 : (Qfloor vi <= Z.of_nat n - 1)%Z).
  { rewrite <- (Qfloor_Z (Z.of_nat n - 1)). apply Qfloor_resp_le.
    unfold Z.sub. rewrite inject_Z_plus, inject_Z_opp.
    change (inject_Z 1) with 1%Q. lra. }
  assert (Hprev : (previous <= n - 1)%nat) by (unfold previous; lia).
  assert (Hg0 : (0 <= vi - inject_Z (Qfloor vi))%Q).
  { pose proof (Qfloor_le vi). lra. }
  assert (Hg1 : (vi - inject_Z (Qfloor vi) <= 1)%Q).
  { pose proof (Qlt_floor vi) as H. rewrite inject_Z_plus in H.
    change (inject_Z 1) with 1%Q in H. lra. }
  assert (Hab : (nth previous sorted 0 <= nth next sorted 0)%Q).
  { apply nth_sorted; [done | unfold next; lia | unfold next, n in *; lia]. }
  split; [done|].
  unfold quantile. fold sorted. fold n. fold vi. fold previous. fold next.
  cbv zeta. split; nra.
Qed.

(** The first quartile is not above the third. *)
Lemma quartiles_ordered (xs : list Q) :
  (quantile xs (1 # 4) <= quantile xs (3 # 4))%Q.
Proof.
  destruct (decide (xs = [])) as [->|Hne]; [vm_compute; discriminate|].
  pose proof (quantile_bounds xs (1 # 4)) as H1.
  pose proof (quantile_bounds xs (3 # 4)) as H3.
  cbv zeta in H1, H3.
  destruct H1 as (Hp1 & Hlo1 & Hhi1); [discriminate | discriminate | done |].
  destruct H3 as (Hp3 & Hlo3 & Hhi3); [discriminate | discriminate | done |].
  set (sorted := merge_sort Qle xs) in *.
  set (n := length sorted) in *.
  assert (Hsorted : StronglySorted Qle sorted)
    by apply (StronglySorted_merge_sort Qle).
  assert (Hn : (1 <= n)%nat).
  { unfold n, sorted. rewrite (Permutation_length (merge_sort_Permutation Qle xs)).
    destruct xs; [done | cbn; lia]. }
  assert (Hn' : (0 <= inject_Z (Z.of_nat n) - 1)%Q).
  { assert (1 <= inject_Z (Z.of_nat n))%Q; [|lra].
    change 1%Q with (inject_Z 1). rewrite <- Zle_Qle. lia. }
  set (v1 := ((1 # 4) * (inject_Z (Z.of_nat n) - 1))%Q) in *.
  set (v3 := ((3 # 4) * (inject_Z (Z.of_nat n) - 1))%Q) in *.
  assert (Hv : (v1 <= v3)%Q) by (unfold v1, v3; lra).
  assert (Hf : (Qfloor v1 <= Qfloor v3)%Z) by (by apply Qfloor_resp_le).
  assert (Hf0 : (0 <= Qfloor v1)%Z).
  { change 0%Z with (Qfloor 0). apply Qfloor_resp_le. unfold v1. lra. }
  destruct (decide (Qfloor v1 = Qfloor v3)) as [Heq|Hneq].
  - (* both between the same two neighbours *)
    unfold quantile. fold sorted. fold n. fold v1. fold v3. cbv zeta.
    rewrite <- Heq.
    set (p := Z.to_nat (Qfloor v1)) in *.
    assert (Hab : (nth p sorted 0 <= nth (Nat.min (p + 1) (n - 1)) sorted 0)%Q).
    { apply nth_sorted; [done | lia | lia]. }
    nra.
  - etrans; [exact Hhi1|]. etrans; [|exact Hlo3].
    apply nth_sorted; [done | lia | lia].
Qed.

Lemma bounds_ordered (xs : list Q) :
  (lower_bound xs <= upper_bound xs)%Q.
Proof.
  pose proof (quartiles_ordered xs). unfold lower_bound, upper_bound.
  cbv zeta. lra.
Qed.

(** ** Preprocessing step 2 *)

Lemma lookup_assign_where (f : Q -> bool) (v : Q) (xs res : list Q) (i : nat)
    (x r : Q) :
  xs !! i = Some x -> res !! i = Some r ->
  assign_where (f <$> xs) v res !! i = Some (if f x then v else r).
Proof.
  intros Hx Hr. unfold assign_where.
  rewrite lookup_zip_with, list_lookup_fmap, Hx. cbn. by rewrite Hr.
Qed.

(** What step 2 leaves at each position, in the order of its two
    assignments. *)
Lemma step2_pointwise (arr : ndarray) (i : nat) (x : Q) :
  data arr !! i = Some x ->
  data (Preprocess_step2_array arr) !! i
  = Some (if Qle_bool x (lower_bound (data arr))
          then cast (dt arr) (lower_bound (data arr))
          else if Qltb (upper_bound (data arr)) x
               then cast (dt arr) (upper_bound (data arr))
               else x).
Proof.
  intros Hx. unfold Preprocess_step2_array. cbn [data].
  erewrite lookup_assign_where; [reflexivity | exact Hx |].
  by erewrite lookup_assign_where.
Qed.

(** The integer part of a rational that is not negative. *)
Lemma cast_uint8_floor (v : Q) :
  (0 <= v)%Q -> (v < 256)%Q -> cast uint8 v = inject_Z (Qfloor v).
Proof.
  intros H0 H256. unfold cast. f_equal.
  destruct v as [num den]. unfold Qle, Qlt in *. cbn in *.
  rewrite Z.quot_div_nonneg by lia.
  apply Z.mod_small. split.
  - apply Z.div_pos; lia.
  - apply Z.div_lt_upper_bound; lia.
Qed.

(** C7, as the code has it.  Step 2 leaves a pixel above the lower bound and
    not above the upper bound as it is; it replaces a pixel above the upper
    bound by that bound and a pixel at or below the lower bound by that
    bound, stored in the element type of the array: as it is in a
    [float64] array, cut to its integer part in a [uint8] array, which is
    what [np.asarray] makes of a PIL image. *)
Theorem step2_clips_C7 (arr : ndarray) (i : nat) (x : Q) :
  data arr !! i = Some x ->
  exists y,
    data (Preprocess_step2_array arr) !! i = Some y /\
    dt (Preprocess_step2_array arr) = dt arr /\
    length (data (Preprocess_step2_array arr)) = length (data arr) /\
    ((lower_bound (data arr) < x)%Q -> (x <= upper_bound (data arr))%Q ->
     y = x) /\
    ((upper_bound (data arr) < x)%Q ->
     y = cast (dt arr) (upper_bound (data arr))) /\
    ((x <= lower_bound (data arr))%Q ->
     y = cast (dt arr) (lower_bound (data arr))) /\
    (forall v, cast float64 v = v) /\
    (forall v, (0 <= v)%Q -> (v < 256)%Q -> cast uint8 v = inject_Z (Qfloor v)).
Proof.
  intros Hx. eexists. split; [by apply step2_pointwise|].
  split; [reflexivity|]. split.
  { unfold Preprocess_step2_array, assign_where. cbn [data].
    rewrite !length_zip_with, !length_fmap. lia. }
  split_and!.
  - intros Hlo Hhi.
    apply Qlt_not_le in Hlo. rewrite <- Qle_bool_iff in Hlo.
    apply not_true_is_false in Hlo. rewrite Hlo.
    apply Qltb_ge in Hhi. by rewrite Hhi.
  - intros Hhi.
    assert (Hlo : (lower_bound (data arr) < x)%Q).
    { pose proof (bounds_ordered (data arr)). lra. }
    apply Qlt_not_le in Hlo. rewrite <- Qle_bool_iff in Hlo.
    apply not_true_is_false in Hlo. rewrite Hlo.
    apply Qltb_lt in Hhi. by rewrite Hhi.
  - intros Hlo. apply Qle_bool_iff in Hlo. by rewrite Hlo.
  - reflexivity.
  - apply cast_uint8_floor.
Qed.

Lemma step2_clips_C7_witness :
  exists y,
    data (Preprocess_step2_array five_pixels) !! 4%nat = Some y /\
    dt (Preprocess_step2_array five_pixels) = uint8 /\
    length (data (Preprocess_step2_array five_pixels)) = 5%nat /\
    ((lower_bound (data five_pixels) < 9)%Q ->
     (9 <= upper_bound (data five_pixels))%Q -> y = 9%Q) /\
    ((upper_bound (data five_pixels) < 9)%Q ->
     y = cast uint8 (upper_bound (data five_pixels))) /\
    ((9 <= lower_bound (data five_pixels))%Q ->
     y = cast uint8 (lower_bound (data five_pixels))) /\
    (forall v, cast float64 v = v) /\
    (forall v, (0 <= v)%Q -> (v < 256)%Q -> cast uint8 v = inject_Z (Qfloor v)).
Proof.
  apply (step2_clips_C7 five_pixels 4 9%Q). reflexivity.
Defined.

(** C7 as the claim states it fails on a [uint8] image: with the pixels
    0, 1, 1, 2, 9 the quartiles are 1 and 2, the upper bound is 3.5, and
    the pixel 9 becomes 3, not 3.5. *)
Lemma step2_clips_C7_counterexample :
  ~ (forall (arr : ndarray) (i : nat) (x y : Q),
       data arr !! i = Some x ->
       data (Preprocess_step2_array arr) !! i = Some y ->
       (upper_bound (data arr) < x)%Q ->
       (y == upper_bound (data arr))%Q).
Proof.
  intros H.
  specialize (H five_pixels 4%nat 9%Q 3%Q eq_refl eq_refl).
  assert (Hup : (upper_bound (data five_pixels) < 9)%Q) by (vm_compute; reflexivity).
  apply H in Hup. vm_compute in Hup. discriminate.
Qed.

(** ** Preprocessing step 3 *)











(** ** Defect detection *)

Lemma kept_detections_spec (forward : image -> list detection) (thr : Q)
    (img : image) (d : detection) :
  d ∈ kept_detections forward thr img <->
  d ∈ forward img /\ (thr < det_score d)%Q.
Proof.
  unfold kept_detections. rewrite list_elem_of_filter, Qltb_lt. tauto.
Qed.





Lemma elem_of_keys_get {V} (k : string) (d : list (string * V)) :
  k ∈ Dict.keys d <-> is_Some (Dict.get d k).
Proof.
  rewrite <- not_eq_None_Some, get_None_keys.
  destruct (decide (k ∈ Dict.keys d)); tauto.
Qed.




(** ** The collaborator handoff *)

(** Without a collaborator the stage loads from disk. *)
Lemma load_images_without_collaborator (filetypes : list string)
    (typed : string) (fs : filesystem) (self : Handoff.stage) :
  Handoff.load_images filetypes typed fs None self
  = Handoff.fallback filetypes typed fs self.
Proof. reflexivity. Qed.

(** An [AttributeError] raised inside [load_images] of the collaborator is
    caught as well: the stage loads from disk, with its own attributes
    untouched, and the error is not seen again. *)
Lemma load_images_absorbs_error (filetypes : list string) (typed : string)
    (fs : filesystem) (c : Handoff.collaborator) (self : Handoff.stage) :
  Handoff.load_images_call c = Raised AttributeError ->
  Handoff.load_images filetypes typed fs (Some c) self
  = Handoff.fallback filetypes typed fs self.
Proof.
  intros H. unfold Handoff.load_images, Handoff.try_block. by rewrite H.
Qed.

(** Any other exception of the collaborator propagates. *)
Lemma load_images_propagates (filetypes : list string) (typed : string)
    (fs : filesystem) (c : Handoff.collaborator) (self : Handoff.stage)
    (e : exn) :
  Handoff.load_images_call c = Raised e -> e <> AttributeError ->
  Handoff.load_images filetypes typed fs (Some c) self = Raised e.
Proof.
  intros H Hne. unfold Handoff.load_images, Handoff.try_block. rewrite H.
  by destruct e.
Qed.

(** A handoff that completes gives the stage the paths and the directory of
    the collaborator, and the disk is not read. *)
Lemma load_images_handoff (filetypes : list string) (typed : string)
    (fs : filesystem) (c : Handoff.collaborator) (self : Handoff.stage)
    (paths : Handoff.pyvalue) (d : string) :
  Handoff.load_images_call c = Done paths ->
  Handoff.Image_directory_attr c = Some d ->
  Handoff.load_images filetypes typed fs (Some c) self
  = Done {| Handoff.image_paths := paths; Handoff.Image_directory := d |}.
Proof.
  intros H1 H2. unfold Handoff.load_images, Handoff.try_block.
  by rewrite H1, H2.
Qed.

Lemma extend_all (dir : string) (fs : filesystem) (filetypes : list string)
    (items : list string) :
  for_each filetypes
    (fun filetype v => Handoff.extend v (Handoff.glob dir filetype fs))
    (Handoff.PyList items)
  = Done (Handoff.PyList
            (items ++ concat ((fun filetype => Handoff.glob dir filetype fs)
                              <$> filetypes))%list).
Proof.
  revert items. induction filetypes as [|t ts IH]; intros items; cbn.
  - by rewrite app_nil_r.
  - rewrite IH. by rewrite <- app_assoc.
Qed.

(** The fallback of a stage whose directory exists: the files of the
    directory, by file type, appended to the paths the stage holds. *)
Lemma fallback_from_disk (filetypes : list string) (typed : string)
    (fs : filesystem) (items : list string) (dir : string) :
  FS.exists_ dir fs = true ->
  Handoff.fallback filetypes typed fs
    {| Handoff.image_paths := Handoff.PyList items;
       Handoff.Image_directory := dir |}
  = Done {| Handoff.image_paths :=
              Handoff.PyList
                (items ++ concat ((fun filetype => Handoff.glob dir filetype fs)
                                  <$> filetypes))%list;
            Handoff.Image_directory := dir |}.
Proof.
  intros Hex. unfold Handoff.fallback. cbn [Handoff.Image_directory
    Handoff.image_paths]. rewrite Hex, extend_all. cbn. by rewrite Hex.
Qed.

(** C10. The claim holds when the collaborator is [None]
    ([load_images_without_collaborator]), when its [load_images] raises
    [AttributeError] ([load_images_absorbs_error]) and when the handoff
    completes ([load_images_handoff]).  It fails when [load_images] returns
    and the collaborator has no [Image_directory]: the assignment to
    [self.image_paths] has happened by then.  With a collaborator that
    returns a list of paths, the fallback appends the files on disk to the
    paths of the collaborator, which are used although the handoff did not
    complete; with [Acquisition_3D], whose [load_images] returns [None],
    the fallback calls [extend] on [None] and the [AttributeError]
    propagates. *)
Theorem handoff_keeps_partial_assignment_C10 :
  Handoff.load_images Handoff.filetypes "" acquired_fs (Some paths_only)
                      fresh_IQA
  = Done {| Handoff.image_paths :=
              Handoff.PyList ["ext/A 1Hz B.png"; "W/1.Acquired_images/x.png"];
            Handoff.Image_directory := "W/1.Acquired_images" |} /\
  Handoff.load_images Handoff.filetypes "" acquired_fs None fresh_IQA
  = Done {| Handoff.image_paths := Handoff.PyList ["W/1.Acquired_images/x.png"];
            Handoff.Image_directory := "W/1.Acquired_images" |} /\
  Handoff.load_images Handoff.filetypes "" acquired_fs (Some Acquisition_3D)
                      fresh_IQA
  = Raised AttributeError.
Proof.
  split_and!; vm_compute; reflexivity.
Qed.

(** ** File names that follow the naming contract *)

Lemma append_cons (x : ascii) (a b : string) :
  String x a +:+ b = String x (a +:+ b).
Proof. reflexivity. Qed.

Lemma append_empty_l (a : string) : "" +:+ a = a.
Proof. reflexivity. Qed.

Lemma append_empty_r (a : string) : a +:+ "" = a.
Proof.
  induction a as [|x a IH]; [reflexivity|]. by rewrite append_cons, IH.
Qed.

Lemma append_assoc (a b c : string) : (a +:+ b) +:+ c = a +:+ (b +:+ c).
Proof.
  induction a as [|x a IH]; [reflexivity|]. by rewrite !append_cons, IH.
Qed.

Lemma length_append (a b : string) :
  String.length (a +:+ b) = (String.length a + String.length b)%nat.
Proof.
  induction a as [|x a IH]; [reflexivity|].
  rewrite append_cons. cbn [String.length]. by rewrite IH.
Qed.

(** Greedy repetition over a run of characters of the class, followed by a
    character outside it: if the rest of the pattern matches behind the
    whole run, that is the match. *)
Lemma star_run (p : ascii -> bool) (k : string -> option string)
    (run s r : string) :
  all_chars p run = true ->
  match s with String c _ => p c = false | EmptyString => True end ->
  k s = Some r ->
  Str.star p k (run +:+ s) = Some r.
Proof.
  intros Hrun Hs Hk. induction run as [|c run IH].
  - rewrite append_empty_l. destruct s as [|c s]; cbn [Str.star]; [done|].
    by rewrite Hs.
  - cbn [all_chars] in Hrun. apply andb_prop in Hrun as [Hc Hrun].
    change (String c run +:+ s) with (String c (run +:+ s)).
    cbn [Str.star]. by rewrite Hc, IH.
Qed.

(** The frequency pattern matches a frequency token whole. *)
Lemma match_frequency_token (t rest : string) :
  is_frequency_token t ->
  Str.match_here frequency_pattern (t +:+ rest) = Some rest.
Proof.
  intros (d & ds1 & ds2 & Hd & H1 & H2 & [->| ->]).
  - rewrite append_assoc.
    change (String d ds1 +:+ "Hz" +:+ rest)
      with (String d (ds1 +:+ String "H" (String "z" rest))).
    unfold frequency_pattern. cbn [Str.match_here]. rewrite Hd.
    apply star_run; [done | reflexivity | reflexivity].
  - rewrite !append_assoc.
    change (String d ds1 +:+ "_" +:+ ds2 +:+ "Hz" +:+ rest)
      with (String d (ds1 +:+ String "_" (ds2 +:+ String "H" (String "z" rest)))).
    unfold frequency_pattern. cbn [Str.match_here]. rewrite Hd.
    apply star_run; [done | reflexivity |].
    change (Ascii.eqb "_" "_") with true. cbn iota.
    rewrite (star_run Str.is_digit _ ds2 (String "H" (String "z" rest)) rest);
      [done | done | reflexivity | reflexivity].
Qed.

Lemma frequency_token_length (t : string) :
  is_frequency_token t -> exists c t', t = String c t'.
Proof. intros (d & ds1 & ds2 & _ & _ & _ & [->| ->]); eauto. Qed.

Lemma sub_from_skip (pat : list Str.atom) (repl a s : string) :
  Str.sub_from pat repl (String.length a) (a +:+ s) = Str.sub_from pat repl 0 s.
Proof.
  induction a as [|c a IH]; [reflexivity|].
  rewrite append_cons. cbn [String.length Str.sub_from]. exact IH.
Qed.

(** [re.sub] removes a frequency token where one starts. *)
Lemma sub_frequency_token (t s : string) :
  is_frequency_token t ->
  Str.sub_from frequency_pattern "" 0 (t +:+ s)
  = Str.sub_from frequency_pattern "" 0 s.
Proof.
  intros Ht. pose proof (match_frequency_token t s Ht) as Hm.
  destruct (frequency_token_length t Ht) as (c & t' & ->).
  change (String c t' +:+ s) with (String c (t' +:+ s)) in *.
  cbn [Str.sub_from]. unfold Str.match_len. rewrite Hm.
  cbn [String.length]. rewrite length_append.
  replace (S (String.length t' + String.length s) - String.length s)%nat
    with (S (String.length t')) by lia.
  rewrite append_empty_l. apply sub_from_skip.
Qed.

(** [re.sub] keeps a run of characters that are no digits. *)
Lemma sub_no_digit (a s : string) :
  all_chars (fun c => negb (Str.is_digit c)) a = true ->
  Str.sub_from frequency_pattern "" 0 (a +:+ s)
  = a +:+ Str.sub_from frequency_pattern "" 0 s.
Proof.
  intros Ha. induction a as [|c a IH]; [done|].
  cbn [all_chars] in Ha. apply andb_prop in Ha as [Hc Ha].
  apply negb_true_iff in Hc.
  change (String c a +:+ s) with (String c (a +:+ s)).
  cbn [Str.sub_from]. unfold Str.match_len, frequency_pattern.
  cbn [Str.match_here]. rewrite Hc.
  fold frequency_pattern. rewrite append_cons. f_equal. by apply IH.
Qed.

Lemma all_chars_weaken (p q : ascii -> bool) (s : string) :
  (forall c, p c = true -> q c = true) ->
  all_chars p s = true -> all_chars q s = true.
Proof.
  intros Hpq. induction s as [|c s IH]; [done|]. cbn.
  intros [Hc Hs]%andb_prop. by rewrite (Hpq _ Hc), IH.
Qed.

Lemma plain_no_digit (s : string) :
  plain_identifier s = true ->
  all_chars (fun c => negb (Str.is_digit c)) s = true.
Proof.
  apply all_chars_weaken. intros c H.
  by apply andb_prop in H as [[? _]%andb_prop _].
Qed.

Lemma plain_no_space (s : string) :
  plain_identifier s = true ->
  all_chars (fun c => negb (Str.is_space c)) s = true.
Proof.
  apply all_chars_weaken. intros c H.
  by apply andb_prop in H as [[_ ?]%andb_prop _].
Qed.

Lemma plain_no_separator (s : string) :
  plain_identifier s = true -> Str.has_char "/" s = false.
Proof.
  induction s as [|c s IH]; [done|]. unfold plain_identifier. cbn.
  intros [[_ Hc]%andb_prop Hs]%andb_prop.
  apply negb_true_iff in Hc. rewrite Hc. by apply IH.
Qed.

(** The name without its frequency: the prefix, two blanks, the suffix. *)
Lemma sub_frequency_name (prefix token suffix : string) :
  plain_identifier prefix = true -> plain_identifier suffix = true ->
  is_frequency_token token ->
  Str.re_sub frequency_pattern ""
    (prefix +:+ " " +:+ token +:+ " " +:+ suffix)
  = prefix +:+ "  " +:+ suffix.
Proof.
  intros Hp Hs Ht. unfold Str.re_sub.
  rewrite (sub_no_digit prefix) by (by apply plain_no_digit).
  f_equal.
  rewrite (sub_no_digit " " (token +:+ " " +:+ suffix)) by reflexivity.
  rewrite sub_frequency_token by done.
  rewrite (sub_no_digit " " suffix) by reflexivity.
  change ("  " +:+ suffix) with (" " +:+ (" " +:+ suffix)).
  do 2 f_equal.
  rewrite <- (append_empty_r suffix) at 1.
  rewrite (sub_no_digit suffix "") by (by apply plain_no_digit).
  cbn [Str.sub_from]. apply append_empty_r.
Qed.

(** [re.split] on the two blanks: the prefix and the suffix. *)
Lemma split_no_space (s : string) :
  all_chars (fun c => negb (Str.is_space c)) s = true ->
  Str.split_from double_space_pattern 0 s = [s].
Proof.
  induction s as [|c s IH]; [done|]. cbn [all_chars].
  intros [Hc Hs]%andb_prop. apply negb_true_iff in Hc.
  cbn [Str.split_from]. unfold Str.match_len, double_space_pattern.
  cbn [Str.match_here]. rewrite Hc.
  fold double_space_pattern. by rewrite IH.
Qed.

Lemma split_composite_name (prefix suffix : string) :
  plain_identifier prefix = true -> plain_identifier suffix = true ->
  Str.re_split double_space_pattern (prefix +:+ "  " +:+ suffix)
  = [prefix; suffix].
Proof.
  intros Hp Hs. unfold Str.re_split.
  apply plain_no_space in Hp. apply plain_no_space in Hs.
  induction prefix as [|c p IH].
  - change ("" +:+ "  " +:+ suffix) with (String " " (String " " suffix)).
    cbn [Str.split_from]. unfold Str.match_len, double_space_pattern.
    cbn [Str.match_here].
    change (Str.is_space " ") with true. cbn iota. cbn [String.length].
    replace (S (S (String.length suffix)) - String.length suffix)%nat
      with 2%nat by lia.
    fold double_space_pattern. by rewrite split_no_space.
  - cbn [all_chars] in Hp. apply andb_prop in Hp as [Hc Hp].
    apply negb_true_iff in Hc.
    change (String c p +:+ "  " +:+ suffix)
      with (String c (p +:+ "  " +:+ suffix)).
    cbn [Str.split_from]. unfold Str.match_len, double_space_pattern.
    cbn [Str.match_here]. rewrite Hc.
    fold double_space_pattern. by rewrite IH.
Qed.

Lemma basename_plain (s : string) :
  Str.has_char "/" s = false -> Str.basename s = s.
Proof.
  destruct s as [|c s]; [done|]. cbn [Str.has_char Str.basename].
  intros [Hc Hs]%orb_false_elim. by rewrite Hs, Ascii.eqb_sym, Hc.
Qed.

Lemma basename_after_separator (d name : string) :
  Str.has_char "/" name = false ->
  Str.basename (d +:+ String "/" name) = name.
Proof.
  intros Hn. induction d as [|c d IH].
  - rewrite append_empty_l. cbn [Str.basename].
    by rewrite Hn, Ascii.eqb_refl.
  - change (String c d +:+ String "/" name)
      with (String c (d +:+ String "/" name)).
    cbn [Str.basename].
    replace (Str.has_char "/" (d +:+ String "/" name)) with true; [done|].
    clear. induction d as [|x d IH]; [reflexivity|].
    rewrite append_cons. cbn [Str.has_char]. rewrite <- IH.
    by rewrite orb_true_r.
Qed.

Lemma has_char_append (c : ascii) (a b : string) :
  Str.has_char c (a +:+ b) = Str.has_char c a || Str.has_char c b.
Proof.
  induction a as [|x a IH]; [reflexivity|].
  rewrite append_cons. cbn [Str.has_char]. by rewrite IH, orb_assoc.
Qed.

(** The composite name of a file that follows the naming contract, in a
    directory written without a final separator. *)
Lemma ungrouped_name_frequency_file (d prefix token suffix : string) :
  plain_identifier prefix = true -> plain_identifier suffix = true ->
  is_frequency_token token ->
  ungrouped_name
    (d +:+ String "/" (prefix +:+ " " +:+ token +:+ " " +:+ suffix))
  = prefix +:+ "  " +:+ suffix.
Proof.
  intros Hp Hs Ht. unfold ungrouped_name.
  rewrite basename_after_separator; [by apply sub_frequency_name|].
  rewrite !has_char_append.
  rewrite (plain_no_separator _ Hp), (plain_no_separator _ Hs).
  destruct Ht as (c & ds1 & ds2 & Hc & H1 & H2 & Ht).
  assert (Hdig : forall s, all_chars Str.is_digit s = true ->
                           Str.has_char "/" s = false).
  { intros s. induction s as [|x s IH]; [done|].
    cbn [all_chars Str.has_char].
    intros [Hx Hs']%andb_prop. rewrite (IH Hs'), orb_false_r.
    destruct (Ascii.eqb_spec "/" x) as [<-|]; [|done].
    vm_compute in Hx. discriminate. }
  assert (Hc' : Ascii.eqb "/" c = false).
  { destruct (Ascii.eqb_spec "/" c) as [<-|]; [|done].
    vm_compute in Hc. discriminate. }
  destruct Ht as [->| ->].
  - change (String c ds1 +:+ "Hz") with (String c (ds1 +:+ "Hz")).
    cbn [Str.has_char]. rewrite has_char_append, (Hdig _ H1), Hc'. reflexivity.
  - change (String c ds1 +:+ "_" +:+ ds2 +:+ "Hz")
      with (String c (ds1 +:+ "_" +:+ ds2 +:+ "Hz")).
    cbn [Str.has_char]. rewrite !has_char_append, (Hdig _ H1), (Hdig _ H2), Hc'.
    reflexivity.
Qed.

(** ** More on the matcher *)

Lemma startswith_append (a y : string) : Str.startswith a (a +:+ y) = true.
Proof.
  induction a as [|c a IH]; [reflexivity|].
  rewrite append_cons. cbn [Str.startswith].
  by rewrite Ascii.eqb_refl, IH.
Qed.

Lemma contains_here (a s : string) :
  Str.startswith a s = true -> Str.contains a s = true.
Proof. intros H. destruct s; cbn [Str.contains]; by rewrite H. Qed.

Lemma contains_append (a x y : string) :
  Str.contains a (x +:+ (a +:+ y)) = true.
Proof.
  induction x as [|c x IH].
  - rewrite append_empty_l. apply contains_here, startswith_append.
  - rewrite append_cons. cbn [Str.contains]. by rewrite IH, orb_true_r.
Qed.

Lemma contains_end (a x : string) : Str.contains a (x +:+ a) = true.
Proof.
  rewrite <- (append_empty_r a) at 2. apply contains_append.
Qed.

Lemma contains_self (a : string) : Str.contains a a = true.
Proof.
  rewrite <- (append_empty_r a) at 2. apply contains_here, startswith_append.
Qed.

Lemma no_double_blank (s : string) :
  all_chars (fun c => negb (Str.is_space c)) s = true ->
  Str.contains "  " (s +:+ " ") = false /\ Str.contains "  " s = false.
Proof.
  induction s as [|c s IH]; [by split|].
  cbn [all_chars]. intros [Hc Hs]%andb_prop. apply negb_true_iff in Hc.
  destruct (IH Hs) as [IH1 IH2].
  assert (Hne : Ascii.eqb " " c = false).
  { destruct (Ascii.eqb_spec " " c) as [<-|]; [|done].
    vm_compute in Hc. discriminate. }
  rewrite append_cons. cbn [Str.contains Str.startswith].
  by rewrite Hne, IH1, IH2.
Qed.

(** X1. A file named after the contract, [<prefix> <frequency> <suffix>]
    with identifiers free of digits, blanks and separators: its composite
    name is the prefix, two blanks and the suffix, whatever the directory
    and the frequency; the name splits into the prefix and the suffix; and
    the enrichment stage saves the composite as prefix, one blank,
    suffix. *)
Theorem contract_file_names_X1 (d prefix token suffix : string) :
  plain_identifier prefix = true -> plain_identifier suffix = true ->
  is_frequency_token token ->
  ungrouped_name (d +:+ String "/" (prefix +:+ " " +:+ token +:+ " " +:+ suffix))
  = prefix +:+ "  " +:+ suffix /\
  Str.re_split double_space_pattern (prefix +:+ "  " +:+ suffix)
  = [prefix; suffix] /\
  img_name (prefix +:+ "  " +:+ suffix) = prefix +:+ " " +:+ suffix.
Proof.
  intros Hp Hs Ht. split_and!.
  - by apply ungrouped_name_frequency_file.
  - by apply split_composite_name.
  - apply img_name_collapses.
    + by apply (no_double_blank prefix), plain_no_space.
    + by apply (no_double_blank suffix), plain_no_space.
Qed.

Lemma contract_file_names_X1_witness :
  ungrouped_name ("W/1.Acquired_images" +:+
                  String "/" ("SampleA" +:+ " " +:+ "0_5Hz" +:+ " " +:+ "SampleB.png"))
  = "SampleA" +:+ "  " +:+ "SampleB.png" /\
  Str.re_split double_space_pattern ("SampleA" +:+ "  " +:+ "SampleB.png")
  = ["SampleA"; "SampleB.png"] /\
  img_name ("SampleA" +:+ "  " +:+ "SampleB.png")
  = "SampleA" +:+ " " +:+ "SampleB.png".
Proof.
  apply (contract_file_names_X1 "W/1.Acquired_images" "SampleA" "0_5Hz"
           "SampleB.png").
  - reflexivity.
  - reflexivity.
  - exists "0"%char, "", "5". split_and!; try reflexivity. by right.
Defined.

(** X2. The group of a composite name made of two plain identifiers: no
    [IndexError]; its members are exactly the paths that contain the prefix
    and the suffix, in the order of the input; and every file of the input
    that is named after the contract with this prefix and suffix is among
    them, so a group is never smaller than its sample. *)
Theorem group_of_contract_name_X2 (image_paths : list string)
    (prefix suffix : string) :
  plain_identifier prefix = true -> plain_identifier suffix = true ->
  exists ps,
    corresponding_paths image_paths (prefix +:+ "  " +:+ suffix) = Done ps /\
    sublist ps image_paths /\
    (forall p, p ∈ ps <->
       p ∈ image_paths /\ Str.contains prefix p = true /\
       Str.contains suffix p = true) /\
    (forall d token,
       d +:+ String "/" (prefix +:+ " " +:+ token +:+ " " +:+ suffix)
         ∈ image_paths ->
       d +:+ String "/" (prefix +:+ " " +:+ token +:+ " " +:+ suffix) ∈ ps).
Proof.
  intros Hp Hs.
  assert (Hrun : corresponding_paths image_paths (prefix +:+ "  " +:+ suffix)
                 = Done (filter (fun s => Str.contains suffix s = true)
                           (filter (fun s => Str.contains prefix s = true)
                                   image_paths))).
  { unfold corresponding_paths. rewrite split_composite_name by done.
    change (default "" ([prefix; suffix] !! 0%nat)) with prefix.
    change ([prefix; suffix] !! 1%nat) with (Some suffix).
    by destruct (filter (fun s => Str.contains prefix s = true) image_paths). }
  assert (Hmembers : forall p,
            p ∈ filter (fun s => Str.contains suffix s = true)
                  (filter (fun s => Str.contains prefix s = true) image_paths)
            <-> p ∈ image_paths /\ Str.contains prefix p = true /\
                Str.contains suffix p = true).
  { intros p. rewrite !list_elem_of_filter. tauto. }
  eexists. split; [exact Hrun|]. split_and!.
  - etrans; apply sublist_filter.
  - exact Hmembers.
  - intros d token Hin. apply Hmembers. split_and!; [done | |].
    + change (d +:+ String "/" (prefix +:+ " " +:+ token +:+ " " +:+ suffix))
        with (d +:+ ("/" +:+ (prefix +:+ " " +:+ token +:+ " " +:+ suffix))).
      rewrite <- (append_assoc d "/"). apply contains_append.
    + change (d +:+ String "/" (prefix +:+ " " +:+ token +:+ " " +:+ suffix))
        with (d +:+ ("/" +:+ (prefix +:+ " " +:+ token +:+ " " +:+ suffix))).
      rewrite <- !append_assoc. apply contains_end.
Qed.

Lemma group_of_contract_name_X2_witness :
  exists ps,
    corresponding_paths two_samples ("A" +:+ "  " +:+ "s.png") = Done ps /\
    sublist ps two_samples /\
    (forall p, p ∈ ps <->
       p ∈ two_samples /\ Str.contains "A" p = true /\
       Str.contains "s.png" p = true) /\
    (forall d token,
       d +:+ String "/" ("A" +:+ " " +:+ token +:+ " " +:+ "s.png")
         ∈ two_samples ->
       d +:+ String "/" ("A" +:+ " " +:+ token +:+ " " +:+ "s.png") ∈ ps).
Proof.
  apply (group_of_contract_name_X2 two_samples "A" "s.png"); reflexivity.
Defined.

(** X3. A file whose name has no frequency and no blank, next to the files
    of the samples: its composite name is the file name itself, the name
    does not split, and the stage that visits it raises [IndexError] from
    [split_path[1]], not the assertion error of the group check. *)
Theorem file_without_frequency_X3 (get_score : string -> Q) (thr : Q)
    (image_paths others : list string) (d name : string) :
  plain_identifier name = true ->
  d +:+ String "/" name ∈ image_paths ->
  ungrouped_name (d +:+ String "/" name) = name /\
  corresponding_paths image_paths name = Raised IndexError /\
  Asses_over (name :: others) get_score thr image_paths = Raised IndexError.
Proof.
  intros Hn Hin.
  assert (Hname : ungrouped_name (d +:+ String "/" name) = name).
  { unfold ungrouped_name, Str.re_sub.
    rewrite basename_after_separator by (by apply plain_no_separator).
    rewrite <- (append_empty_r name) at 1.
    rewrite sub_no_digit by (by apply plain_no_digit).
    apply append_empty_r. }
  assert (Hc : corresponding_paths image_paths name = Raised IndexError).
  { unfold corresponding_paths, Str.re_split.
    rewrite split_no_space by (by apply plain_no_space).
    change (default "" ([name] !! 0%nat)) with name.
    change ([name] !! 1%nat) with (@None string).
    destruct (filter (fun s => Str.contains name s = true) image_paths)
      as [|p ps] eqn:E; [|reflexivity].
    assert (Hp : d +:+ String "/" name
                 ∈ filter (fun s => Str.contains name s = true) image_paths).
    { apply list_elem_of_filter. split; [|done].
      change (d +:+ String "/" name) with (d +:+ ("/" +:+ name)).
      rewrite <- append_assoc. apply contains_end. }
    rewrite E in Hp. by apply elem_of_nil in Hp. }
  split_and!; [done | done |].
  assert (Hbody : Asses_body get_score thr image_paths name []
                  = Raised IndexError).
  { unfold Asses_body, group_of. by rewrite Hc. }
  unfold Asses_over. by rewrite for_each_cons, Hbody.
Qed.

Lemma file_without_frequency_X3_witness :
  ungrouped_name ("d" +:+ String "/" "notes.png") = "notes.png" /\
  corresponding_paths ["d/S 1Hz T.png"; "d/notes.png"] "notes.png"
  = Raised IndexError /\
  Asses_over ["notes.png"; "S  T.png"] (fun _ => 10%Q) 70
             ["d/S 1Hz T.png"; "d/notes.png"]
  = Raised IndexError.
Proof.
  apply (file_without_frequency_X3 (fun _ => 10%Q) 70
           ["d/S 1Hz T.png"; "d/notes.png"] ["S  T.png"] "d" "notes.png").
  - reflexivity.
  - right. left.
Defined.

(** ** More on the quality gate *)

(** X4. The records of a run of [Asses] that returns: one per composite
    name, in the order visited; each holds three paths of the input, the
    score of each, and for each whether that score is strictly below the
    threshold (a score equal to the threshold fails); the composite passes
    exactly when all three scores are below the threshold. *)
Theorem Asses_quality_records_X4 (get_score : string -> Q) (thr : Q)
    (paths names : list string) (ls : list composite_dict) :
  Asses_over names get_score thr paths = Done ls ->
  composite_name <$> ls = names /\
  Forall (fun d =>
            length (image_paths d) = 3%nat /\
            sublist (image_paths d) paths /\
            scores d = get_score <$> image_paths d /\
            passed d = (fun path => bool_decide (get_score path < thr)%Q)
                       <$> image_paths d /\
            (Composite_pass d = true <->
             forall path, path ∈ image_paths d -> (get_score path < thr)%Q))
         ls.
Proof.
  intros H. apply Asses_records in H.
  induction H as [|n d names ls Hd H IH]; [by split; constructor|].
  destruct IH as [IHn IHf]. split.
  - cbn. f_equal; [by destruct Hd | done].
  - constructor; [|done].
    pose proof (recorded_pass _ _ _ _ _ Hd) as (_ & _ & Hall).
    destruct Hd as (_ & Hc & H3 & Hs & Hp & _).
    split_and!; try done.
    + by eapply corresponding_paths_sublist.
    + rewrite Hp, Hs, <- list_fmap_compose. apply list_fmap_ext.
      intros _ path _. cbn. symmetry.
      destruct (Qltb (get_score path) thr) eqn:E.
      * apply bool_decide_eq_true. by apply Qltb_lt.
      * apply bool_decide_eq_false. apply Qltb_ge in E.
        by apply Qle_not_lt.
Qed.

Lemma Asses_quality_records_X4_witness :
  composite_name <$>
    [ {| composite_name := "S  T.png";
         image_paths := ["w/d/S 1Hz T.png"; "w/d/S 0_5Hz T.png"; "w/d/S 2Hz T.png"];
         scores := [10; 10; 10]%Q;
         passed := [true; true; true];
         Composite_pass := true |} ]
  = ["S  T.png"] /\
  Forall (fun d =>
            length (image_paths d) = 3%nat /\
            sublist (image_paths d)
                    (sample_files "w/d" "S" "T.png" ["1Hz"; "0_5Hz"; "2Hz"]) /\
            scores d = (fun _ => 10%Q) <$> image_paths d /\
            passed d = (fun path => bool_decide (10 < 70)%Q) <$> image_paths d /\
            (Composite_pass d = true <->
             forall path, path ∈ image_paths d -> (10 < 70)%Q))
         [ {| composite_name := "S  T.png";
              image_paths := ["w/d/S 1Hz T.png"; "w/d/S 0_5Hz T.png"; "w/d/S 2Hz T.png"];
              scores := [10; 10; 10]%Q;
              passed := [true; true; true];
              Composite_pass := true |} ].
Proof.
  apply (Asses_quality_records_X4 (fun _ => 10%Q) 70
           (sample_files "w/d" "S" "T.png" ["1Hz"; "0_5Hz"; "2Hz"])
           ["S  T.png"]).
  vm_compute. reflexivity.
Defined.

(** X5. [Asses] followed by [save_images]: every file in [2.IQA_images] is
    the copy, under its base name, of an image of the input whose own score
    is below the threshold and that belongs to a group of three images all
    below the threshold.  An image that itself misses the threshold is never
    copied. *)
Theorem gate_copies_passing_images_X5 (get_score : string -> Q) (thr : Q)
    (paths names : list string) (ls : list composite_dict)
    (Working_directory : string) (fs fs' : filesystem) :
  Asses_over names get_score thr paths = Done ls ->
  IQA_save_images Working_directory ls fs = Done fs' ->
  exists entries,
    fs' !! Str.join Working_directory "2.IQA_images" = Some entries /\
    forall n x, entries !! n = Some x ->
      exists path f group,
        x = File f /\ FS.read path fs = Done f /\ Str.basename path = n /\
        path ∈ paths /\ (get_score path < thr)%Q /\
        path ∈ group /\ length group = 3%nat /\
        (forall q, q ∈ group -> q ∈ paths /\ (get_score q < thr)%Q).
Proof.
  intros HA Hsave.
  apply Asses_quality_records_X4 in HA as [_ Hrec].
  apply (save_images_directory Working_directory (IQARun ls)) in Hsave
    as (entries & Hd & _ & _ & Hfiles).
  exists entries. split; [done|].
  intros n x Hx. apply Hfiles in Hx as (path & f & Hsrc & Hname & Hmade & ->).
  cbn in Hsrc, Hname, Hmade. unfold passing_paths in Hsrc.
  apply elem_of_concat in Hsrc as (l & Hpath & Hl).
  apply list_elem_of_fmap in Hl as (d & -> & Hdin).
  destruct (Composite_pass d) eqn:Hpass; [|by apply elem_of_nil in Hpath].
  rewrite Forall_forall in Hrec.
  destruct (Hrec d Hdin) as (H3 & Hsub & _ & _ & Hall).
  pose proof (proj1 Hall Hpass) as Hbelow.
  exists path, f, (image_paths d). split_and!; try done.
  - by eapply elem_of_sublist.
  - by apply Hbelow.
  - intros q Hq. split; [by eapply elem_of_sublist | by apply Hbelow].
Qed.

Lemma gate_copies_passing_images_X5_witness :
  exists entries,
    fs_of (ls ← Asses shared_member_score 70 shared_member;
           IQA_save_images "W" ls shared_member_fs)
    !! Str.join "W" "2.IQA_images" = Some entries /\
    forall n x, entries !! n = Some x ->
      exists path f group,
        x = File f /\ FS.read path shared_member_fs = Done f /\
        Str.basename path = n /\
        path ∈ shared_member /\ (shared_member_score path < 70)%Q /\
        path ∈ group /\ length group = 3%nat /\
        (forall q, q ∈ group ->
                   q ∈ shared_member /\ (shared_member_score q < 70)%Q).
Proof.
  destruct (Asses shared_member_score 70 shared_member) as [ls|e] eqn:E;
    [|vm_compute in E; discriminate].
  apply (gate_copies_passing_images_X5 shared_member_score 70 shared_member
           (set_order (uip shared_member)) ls "W" shared_member_fs).
  - exact E.
  - vm_compute in E. injection E as <-. vm_compute. reflexivity.
Defined.

(** ** More on the save step *)

Lemma for_each_done_steps {A S} (xs : list A) (body : A -> S -> outcome S)
    (s s' : S) :
  for_each xs body s = Done s' ->
  forall x, x ∈ xs -> exists s1 s2, body x s1 = Done s2.
Proof.
  revert s. induction xs as [|y xs IH]; intros s H x Hx.
  - by apply elem_of_nil in Hx.
  - rewrite for_each_cons in H.
    destruct (body y s) as [s1|e] eqn:E; [|discriminate]. cbn in H.
    apply elem_of_cons in Hx as [->|Hx]; [eauto | by eapply IH].
Qed.

(** X6. The acquisition and the IQA stage copy files: their save step does
    not return when one of the files to copy lies in the stage directory
    itself, which it has just emptied. *)
Theorem copy_from_own_directory_fails_X6 (Working_directory : string) (r : run)
    (fs fs' : filesystem) (path : string) :
  (exists paths, r = AcquisitionRun paths) \/ (exists ls, r = IQARun ls) ->
  path ∈ sources r ->
  save_images Working_directory r fs = Done fs' ->
  Str.dirname path <> Str.join Working_directory (stage_directory r).
Proof.
  intros Hr Hpath Hrun.
  assert (Hloop : exists fs1,
            for_each (sources r)
              (fun p => FS.copyfile p
                          (Str.join Working_directory (stage_directory r))) fs1
            = Done fs').
  { destruct Hr as [[paths ->]|[ls ->]]; cbn in Hrun |- *.
    - unfold Acquisition_save_images in Hrun.
      destruct (FS.prepare _ fs) as [fs1|e]; [|discriminate]. by exists fs1.
    - rewrite IQA_save_images_flat in Hrun.
      destruct (FS.prepare _ fs) as [fs1|e]; [|discriminate]. by exists fs1. }
  destruct Hloop as [fs1 Hloop].
  destruct (for_each_done_steps _ _ _ _ Hloop path Hpath) as (s1 & s2 & Hstep).
  by apply copyfile_done in Hstep as (_ & _ & _ & Hne & _).
Qed.

Lemma copy_from_own_directory_fails_X6_witness :
  Str.dirname "src/a 1Hz x.png" <> Str.join "W" (stage_directory first_run).
Proof.
  apply (copy_from_own_directory_fails_X6 "W" first_run two_runs_fs
           after_first_run "src/a 1Hz x.png").
  - left. by eexists.
  - left.
  - vm_compute. reflexivity.
Defined.

(** X7. A save step that returns has changed its own stage directory and
    nothing else: every other directory is as before, and every file
    outside the stage directory reads as before. *)
Theorem save_leaves_the_rest_X7 (Working_directory : string) (r : run)
    (fs fs' : filesystem) :
  save_images Working_directory r fs = Done fs' ->
  is_Some (fs' !! Str.join Working_directory (stage_directory r)) /\
  (forall d, d <> Str.join Working_directory (stage_directory r) ->
             fs' !! d = fs !! d) /\
  (forall path,
     Str.dirname path <> Str.join Working_directory (stage_directory r) ->
     FS.read path fs' = FS.read path fs).
Proof.
  intros H. apply save_images_directory in H as (entries & Hd & Hrest & _).
  split_and!; [eauto | done |].
  intros path Hne.
  by apply read_outside with (d := Str.join Working_directory (stage_directory r)).
Qed.

Lemma save_leaves_the_rest_X7_witness :
  is_Some (after_first_run !! Str.join "W" (stage_directory first_run)) /\
  (forall d, d <> Str.join "W" (stage_directory first_run) ->
             after_first_run !! d = two_runs_fs !! d) /\
  (forall path,
     Str.dirname path <> Str.join "W" (stage_directory first_run) ->
     FS.read path after_first_run = FS.read path two_runs_fs).
Proof.
  apply (save_leaves_the_rest_X7 "W" first_run two_runs_fs after_first_run).
  vm_compute. reflexivity.
Defined.

Lemma remove_done_file (d name : string) (fs fs' : filesystem) :
  FS.remove d name fs = Done fs' ->
  exists entries f,
    fs !! d = Some entries /\ entries !! name = Some (File f) /\
    fs' = <[d := delete name entries]> fs.
Proof.
  unfold FS.remove. destruct (fs !! d) as [entries|]; [|discriminate].
  destruct (entries !! name) as [[f|]|] eqn:E; try discriminate.
  intros [= <-]. eauto.
Qed.

Lemma remove_all_files (d : string) (names : list string) :
  NoDup names ->
  forall (fs fs' : filesystem) (entries : gmap string entry),
    fs !! d = Some entries ->
    for_each names (FS.remove d) fs = Done fs' ->
    forall k, k ∈ names -> exists f, entries !! k = Some (File f).
Proof.
  induction 1 as [|n names Hn Hnodup IH]; intros fs fs' entries Hd Hrun k Hk.
  - by apply elem_of_nil in Hk.
  - rewrite for_each_cons in Hrun.
    destruct (FS.remove d n fs) as [fs1|e] eqn:E; [|discriminate].
    apply remove_done_file in E as (entries' & f & Hd' & Hf & ->).
    rewrite Hd in Hd'. injection Hd' as <-. cbn in Hrun.
    apply elem_of_cons in Hk as [->|Hk]; [eauto|].
    destruct (IH _ _ (delete n entries) (lookup_insert_eq _ _ _) Hrun k Hk)
      as [g Hg].
    exists g. rewrite lookup_delete_ne in Hg; [done|]. by intros ->.
Qed.

(** X8. The save step empties its stage directory file by file with
    [os.remove]: it returns only if the directory held nothing but files.
    A folder inside the stage directory makes the save step raise. *)
Theorem save_needs_plain_files_X8 (Working_directory : string) (r : run)
    (fs fs' : filesystem) (entries : gmap string entry) (name : string)
    (e : entry) :
  save_images Working_directory r fs = Done fs' ->
  fs !! Str.join Working_directory (stage_directory r) = Some entries ->
  entries !! name = Some e ->
  exists f, e = File f.
Proof.
  intros Hrun Hd He.
  assert (Hprep : exists fs1,
            FS.prepare (Str.join Working_directory (stage_directory r)) fs
            = Done fs1).
  { destruct r; cbn in Hrun |- *;
      unfold Acquisition_save_images, IQA_save_images, Preprocess_save_images,
        Enrichment_save_images, DefectDetection_save_images in Hrun;
      destruct (FS.prepare _ fs) as [fs1|?]; try discriminate; by exists fs1. }
  destruct Hprep as [fs1 Hprep].
  unfold FS.prepare, FS.exists_, FS.listdir in Hprep.
  rewrite Hd in Hprep. rewrite bool_decide_eq_true_2 in Hprep by eauto.
  cbn [default from_option id] in Hprep.
  destruct (remove_all_files _ _ (NoDup_fst_map_to_list entries) _ _ _ Hd Hprep
              name) as [f Hf].
  - apply list_elem_of_fmap. exists (name, e). split; [done|].
    by apply elem_of_map_to_list.
  - exists f. congruence.
Qed.

Lemma save_needs_plain_files_X8_witness :
  exists f, File (Picture (one_pixel 1)) = File f.
Proof.
  apply (save_needs_plain_files_X8 "W" second_run after_first_run
           after_second_run
           {[ "a 1Hz x.png" := File (Picture (one_pixel 1)) ]}
           "a 1Hz x.png").
  - vm_compute. reflexivity.
  - vm_compute. reflexivity.
  - vm_compute. reflexivity.
Defined.

(** ** More on preprocessing step 2 *)

Lemma nth_sorted_elem (xs : list Q) (i : nat) :
  (i < length (merge_sort Qle xs))%nat ->
  nth i (merge_sort Qle xs) 0%Q ∈ xs.
Proof.
  intros Hi.
  apply (elem_of_Permutation_proper _ _ _ (merge_sort_Permutation Qle xs)).
  apply list_elem_of_In, nth_In. exact Hi.
Qed.

(** A quantile lies within the range of the values. *)
Lemma quantile_range (xs : list Q) (q a b : Q) :
  (0 <= q)%Q -> (q <= 1)%Q -> xs <> [] ->
  (forall x, x ∈ xs -> (a <= x)%Q /\ (x <= b)%Q) ->
  (a <= quantile xs q)%Q /\ (quantile xs q <= b)%Q.
Proof.
  intros Hq0 Hq1 Hne Hrange.
  pose proof (quantile_bounds xs q Hq0 Hq1 Hne) as H. cbv zeta in H.
  destruct H as (Hprev & Hlo & Hhi).
  set (sorted := merge_sort Qle xs) in *.
  assert (Hn : (1 <= length sorted)%nat).
  { unfold sorted. rewrite (Permutation_length (merge_sort_Permutation Qle xs)).
    destruct xs; [done | cbn; lia]. }
  split.
  - etrans; [|exact Hlo]. apply Hrange, nth_sorted_elem. fold sorted. lia.
  - etrans; [exact Hhi|]. apply Hrange, nth_sorted_elem. fold sorted. lia.
Qed.

Lemma quartile_facts (xs : list Q) (a b : Q) :
  xs <> [] ->
  (forall x, x ∈ xs -> (a <= x)%Q /\ (x <= b)%Q) ->
  (a <= quantile xs (1 # 4))%Q /\
  (quantile xs (1 # 4) <= quantile xs (3 # 4))%Q /\
  (quantile xs (3 # 4) <= b)%Q /\
  (lower_bound xs <= quantile xs (1 # 4))%Q /\
  (quantile xs (3 # 4) <= upper_bound xs)%Q.
Proof.
  intros Hne Hrange.
  pose proof (quartiles_ordered xs) as Hord.
  destruct (quantile_range xs (1 # 4) a b) as [H1 _]; try done.
  destruct (quantile_range xs (3 # 4) a b) as [_ H3]; try done.
  split_and!; try done.
  - unfold lower_bound. cbv zeta. lra.
  - unfold upper_bound. cbv zeta. lra.
Qed.

(** X9. The quartiles that step 2 computes: the first is not above the
    third, both lie within the range of the pixel values, and the two
    bounds enclose them, so that the interquartile range is not negative
    and no pixel is at or below the lower bound and above the upper one at
    once. *)
Theorem quartiles_and_bounds_X9 (xs : list Q) (a b : Q) :
  xs <> [] ->
  (forall x, x ∈ xs -> (a <= x)%Q /\ (x <= b)%Q) ->
  (a <= quantile xs (1 # 4))%Q /\
  (quantile xs (1 # 4) <= quantile xs (3 # 4))%Q /\
  (quantile xs (3 # 4) <= b)%Q /\
  (lower_bound xs <= quantile xs (1 # 4))%Q /\
  (quantile xs (3 # 4) <= upper_bound xs)%Q /\
  (forall x, ~ ((x <= lower_bound xs)%Q /\ (upper_bound xs < x)%Q)).
Proof.
  intros Hne Hrange.
  destruct (quartile_facts xs a b Hne Hrange) as (? & ? & ? & ? & ?).
  split_and!; try done.
  intros x [Hlo Hhi]. pose proof (bounds_ordered xs). lra.
Qed.

Lemma quartiles_and_bounds_X9_witness :
  (0 <= quantile (data five_pixels) (1 # 4))%Q /\
  (quantile (data five_pixels) (1 # 4) <= quantile (data five_pixels) (3 # 4))%Q /\
  (quantile (data five_pixels) (3 # 4) <= 9)%Q /\
  (lower_bound (data five_pixels) <= quantile (data five_pixels) (1 # 4))%Q /\
  (quantile (data five_pixels) (3 # 4) <= upper_bound (data five_pixels))%Q /\
  (forall x, ~ ((x <= lower_bound (data five_pixels))%Q /\
                (upper_bound (data five_pixels) < x)%Q)).
Proof.
  apply (quartiles_and_bounds_X9 (data five_pixels) 0 9).
  - discriminate.
  - intros x Hx. vm_compute in Hx.
    repeat (apply elem_of_cons in Hx as [->|Hx]; [split; discriminate|]).
    by apply elem_of_nil in Hx.
Defined.

(** X10. Step 2 on a [uint8] image: every pixel of the result is again an
    integer between 0 and 255.  A bound is stored only where a pixel lies
    beyond it, and then the bound itself lies in that range: the cast to
    [uint8] never wraps around. *)
Theorem step2_keeps_uint8_X10 (arr : ndarray) :
  dt arr = uint8 ->
  (forall x, x ∈ data arr ->
             exists k, (0 <= k <= 255)%Z /\ x = inject_Z k) ->
  forall y, y ∈ data (Preprocess_step2_array arr) ->
            exists k, (0 <= k <= 255)%Z /\ y = inject_Z k.
Proof.
  intros Hdt Hpix y Hy.
  apply list_elem_of_lookup in Hy as [i Hi].
  assert (Hlen : length (data (Preprocess_step2_array arr)) = length (data arr)).
  { unfold Preprocess_step2_array, assign_where. cbn [data].
    rewrite !length_zip_with, !length_fmap. lia. }
  destruct (lookup_lt_is_Some_2 (data arr) i) as [x Hx].
  { rewrite <- Hlen. by eapply lookup_lt_Some. }
  rewrite (step2_pointwise arr i x Hx) in Hi. injection Hi as <-.
  assert (Hne : data arr <> []) by (intros E; by rewrite E in Hx).
  assert (Hrange : forall v, v ∈ data arr -> (0 <= v)%Q /\ (v <= 255)%Q).
  { intros v Hv. destruct (Hpix v Hv) as (k & Hk & ->).
    change 0%Q with (inject_Z 0). change 255%Q with (inject_Z 255).
    rewrite <- !Zle_Qle. lia. }
  destruct (quartile_facts (data arr) 0 255 Hne Hrange)
    as (Hq1 & Hq13 & Hq3 & Hlo & Hhi).
  destruct (Hrange x) as [Hx0 Hx255]; [by eapply list_elem_of_lookup_2|].
  assert (Hfloor : forall v, (0 <= v)%Q -> (v < 256)%Q ->
            exists k, (0 <= k <= 255)%Z /\ cast uint8 v = inject_Z k).
  { intros v H0 H256. exists (Qfloor v). split; [|by apply cast_uint8_floor].
    split.
    - change 0%Z with (Qfloor 0). by apply Qfloor_resp_le.
    - assert (Qfloor v < 256)%Z; [|lia].
      pose proof (Qfloor_le v). rewrite Zlt_Qlt.
      change (inject_Z 256) with 256%Q. lra. }
  rewrite Hdt.
  destruct (Qle_bool x (lower_bound (data arr))) eqn:E1.
  - apply Qle_bool_iff in E1. apply Hfloor; lra.
  - destruct (Qltb (upper_bound (data arr)) x) eqn:E2.
    + apply Qltb_lt in E2. apply Hfloor; lra.
    + by apply Hpix, list_elem_of_lookup_2 with i.
Qed.

Lemma step2_keeps_uint8_X10_witness :
  forall y, y ∈ data (Preprocess_step2_array five_pixels) ->
            exists k, (0 <= k <= 255)%Z /\ y = inject_Z k.
Proof.
  apply (step2_keeps_uint8_X10 five_pixels).
  - reflexivity.
  - intros x Hx. vm_compute in Hx.
    repeat (apply elem_of_cons in Hx as [->|Hx];
            [eexists; split; [|reflexivity]; lia|]).
    by apply elem_of_nil in Hx.
Defined.

(** ** More on the enrichment stage *)

Lemma open_members_loop {V} (wrap : image -> V) (fs : filesystem)
    (ps : list string) :
  forall acc d : list (string * V),
    for_each ps (fun path images_dict =>
                   image ← Image_open path fs;
                   Done (Dict.set path (wrap image) images_dict)) acc = Done d ->
    (forall p, p ∈ ps ->
       exists img, Image_open p fs = Done img /\ Dict.get d p = Some (wrap img)) /\
    (forall p v, Dict.get d p = Some v ->
       Dict.get acc p = Some v \/
       (p ∈ ps /\ exists img, Image_open p fs = Done img /\ v = wrap img)) /\
    (forall p v, Dict.get acc p = Some v -> p ∉ ps -> Dict.get d p = Some v).
Proof.
  induction ps as [|q ps IH]; intros acc d.
  - intros [= <-]. split_and!.
    + intros p Hp. by apply elem_of_nil in Hp.
    + intros p v Hv. by left.
    + done.
  - rewrite for_each_cons.
    destruct (Image_open q fs) as [img|e] eqn:Hopen; [|discriminate]. cbn.
    intros Hrun. destruct (IH _ _ Hrun) as (Hin & Hfrom & Hkeep).
    split_and!.
    + intros p Hp. destruct (decide (p ∈ ps)) as [Hps|Hps]; [by apply Hin|].
      apply elem_of_cons in Hp as [->|Hp]; [|done].
      exists img. split; [done|]. apply Hkeep; [apply get_set_eq | done].
    + intros p v Hv. apply Hfrom in Hv as [Hv|(Hp & i & Hi & ->)].
      * destruct (decide (q = p)) as [->|Hne].
        -- rewrite get_set_eq in Hv. injection Hv as <-.
           right. split; [left | eauto].
        -- rewrite get_set_ne in Hv by done. by left.
      * right. split; [by right | eauto].
    + intros p v Hv Hp. apply not_elem_of_cons in Hp as [Hne Hp].
      apply Hkeep; [|done]. by rewrite get_set_ne.
Qed.

(** The loop of [load_images] over the composite names: what it leaves in
    the dictionary. *)
Lemma load_groups_loop {V} (wrap : image -> V) (fs : filesystem)
    (paths names : list string) :
  forall acc d : list (string * V),
    (forall p v, Dict.get acc p = Some v ->
       exists img, Image_open p fs = Done img /\ v = wrap img) ->
    for_each names (load_group wrap fs paths) acc = Done d ->
    (forall p v, Dict.get d p = Some v ->
       exists img, Image_open p fs = Done img /\ v = wrap img) /\
    (forall p, is_Some (Dict.get acc p) -> is_Some (Dict.get d p)) /\
    (forall p, is_Some (Dict.get d p) -> is_Some (Dict.get acc p) \/ p ∈ paths) /\
    (forall n, n ∈ names ->
       exists ps, corresponding_paths paths n = Done ps /\ length ps = 3%nat /\
                  forall p, p ∈ ps -> is_Some (Dict.get d p)).
Proof.
  induction names as [|n names IH]; intros acc d Hacc.
  - intros [= <-]. split_and!; try done.
    + intros p Hp. by left.
    + intros n Hn. by apply elem_of_nil in Hn.
  - rewrite for_each_cons.
    destruct (load_group wrap fs paths n acc) as [acc1|e] eqn:Hg; [|discriminate].
    cbn. intros Hrun.
    unfold load_group, group_of in Hg.
    destruct (corresponding_paths paths n) as [ps|e] eqn:Hc; [|discriminate].
    cbn in Hg.
    destruct (assert_three ps) as [ps'|e] eqn:H3; [|discriminate].
    apply assert_three_done in H3 as [-> H3]. cbn in Hg.
    destruct (open_members_loop wrap fs ps acc acc1 Hg) as (Hin & Hfrom & Hkeep).
    assert (Hacc1 : forall p v, Dict.get acc1 p = Some v ->
              exists img, Image_open p fs = Done img /\ v = wrap img).
    { intros p v Hv. apply Hfrom in Hv as [Hv|(_ & i & Hi & ->)]; eauto. }
    destruct (IH acc1 d Hacc1 Hrun) as (Hcons & Hmono & Hkeys & Hnames).
    assert (Hmono1 : forall p, is_Some (Dict.get acc p) ->
                               is_Some (Dict.get acc1 p)).
    { intros p [v Hv]. destruct (decide (p ∈ ps)) as [Hp|Hp].
      - destruct (Hin p Hp) as (i & _ & Hi). eauto.
      - exists v. by apply Hkeep. }
    split_and!; try done.
    + intros p Hp. by apply Hmono, Hmono1.
    + intros p Hp. apply Hkeys in Hp as [[v Hv]|Hp]; [|by right].
      apply Hfrom in Hv as [Hv|[Hp _]]; [left; eauto|].
      right. eapply elem_of_sublist; [exact Hp|].
      by eapply corresponding_paths_sublist.
    + intros m Hm. apply elem_of_cons in Hm as [->|Hm]; [|by apply Hnames].
      exists ps. split_and!; try done.
      intros p Hp. apply Hmono. destruct (Hin p Hp) as (i & _ & Hi). eauto.
Qed.

(** X11. After [load_images] of the enrichment stage has gone through the
    composite names, every group has three members and the dictionary holds
    for each member the image opened at its path; every key of the
    dictionary is a path of the input.  [enrich], which reads the members
    with [images_dict.get], therefore never meets a missing image. *)
Theorem load_then_enrich_X11 (fs : filesystem) (paths names : list string)
    (images_dict : list (string * image)) :
  Enrichment_load_groups names fs paths [] = Done images_dict ->
  (forall n, n ∈ names ->
     exists ps, corresponding_paths paths n = Done ps /\ length ps = 3%nat /\
       forall p, p ∈ ps ->
         exists img, Image_open p fs = Done img /\
                     Dict.get images_dict p = Some img) /\
  (forall p, p ∈ Dict.keys images_dict -> p ∈ paths) /\
  (forall n acc, n ∈ names ->
     enrich_body paths images_dict n acc <> Raised AttributeError).
Proof.
  intros Hrun.
  destruct (load_groups_loop id fs paths names [] images_dict)
    as (Hcons & _ & Hkeys & Hnames); [done | exact Hrun |].
  assert (Hmembers : forall n, n ∈ names ->
     exists ps, corresponding_paths paths n = Done ps /\ length ps = 3%nat /\
       forall p, p ∈ ps ->
         exists img, Image_open p fs = Done img /\
                     Dict.get images_dict p = Some img).
  { intros n Hn. destruct (Hnames n Hn) as (ps & Hc & H3 & Hps).
    exists ps. split_and!; try done.
    intros p Hp. destruct (Hps p Hp) as [v Hv].
    destruct (Hcons p v Hv) as (img & Hopen & ->). eauto. }
  split_and!; [done | |].
  - intros p Hp. apply elem_of_keys_get in Hp.
    by destruct (Hkeys p Hp) as [[v Hv]|Hin].
  - intros n acc Hn. destruct (Hmembers n Hn) as (ps & Hc & H3 & Hps).
    destruct ps as [|p0 [|p1 [|p2 [|p3 ps]]]]; try discriminate.
    destruct (Hps p0) as (i0 & _ & H0); [set_solver|].
    destruct (Hps p1) as (i1 & _ & H1); [set_solver|].
    destruct (Hps p2) as (i2 & _ & H2); [set_solver|].
    unfold enrich_body. rewrite Hc. cbn [mbind outcome_bind fmap list_fmap].
    rewrite H0, H1, H2.
    destruct (Image_merge "RGB" [Some i0; Some i1; Some i2]) as [m|e] eqn:Hm;
      [done|].
    intros [= ->]. revert Hm. unfold Image_merge. cbn.
    repeat (case_match; try discriminate).
Qed.

Lemma load_then_enrich_X11_witness :
  (forall n, n ∈ ["S  T.png"] ->
     exists ps,
       corresponding_paths
         (sample_files "d" "S" "T.png" ["1Hz"; "2Hz"; "3Hz"]) n = Done ps /\
       length ps = 3%nat /\
       forall p, p ∈ ps ->
         exists img,
           Image_open p
             {[ "d" := {[ "S 1Hz T.png" := File (Picture (one_pixel 1));
                          "S 2Hz T.png" := File (Picture (one_pixel 2));
                          "S 3Hz T.png" := File (Picture (one_pixel 3)) ]} ]}
           = Done img /\
           Dict.get [("d/S 1Hz T.png", one_pixel 1);
                     ("d/S 2Hz T.png", one_pixel 2);
                     ("d/S 3Hz T.png", one_pixel 3)] p = Some img) /\
  (forall p, p ∈ Dict.keys [("d/S 1Hz T.png", one_pixel 1);
                            ("d/S 2Hz T.png", one_pixel 2);
                            ("d/S 3Hz T.png", one_pixel 3)] ->
             p ∈ sample_files "d" "S" "T.png" ["1Hz"; "2Hz"; "3Hz"]) /\
  (forall n acc, n ∈ ["S  T.png"] ->
     enrich_body (sample_files "d" "S" "T.png" ["1Hz"; "2Hz"; "3Hz"])
       [("d/S 1Hz T.png", one_pixel 1); ("d/S 2Hz T.png", one_pixel 2);
        ("d/S 3Hz T.png", one_pixel 3)] n acc
     <> Raised AttributeError).
Proof.
  apply (load_then_enrich_X11
           {[ "d" := {[ "S 1Hz T.png" := File (Picture (one_pixel 1));
                        "S 2Hz T.png" := File (Picture (one_pixel 2));
                        "S 3Hz T.png" := File (Picture (one_pixel 3)) ]} ]}
           (sample_files "d" "S" "T.png" ["1Hz"; "2Hz"; "3Hz"])
           ["S  T.png"]).
  vm_compute. reflexivity.
Defined.

Lemma Image_merge_RGB_done (images : list (option image)) (merged : image) :
  Image_merge "RGB" images = Done merged ->
  exists i0 i1 i2 b0 b1 b2,
    images = [Some i0; Some i1; Some i2] /\
    mode i0 = "L" /\ mode i1 = "L" /\ mode i2 = "L" /\
    bands i0 = [b0] /\ bands i1 = [b1] /\ bands i2 = [b2] /\
    size i1 = size i0 /\ size i2 = size i0 /\
    merged = {| mode := "RGB"; size := size i0; bands := [b0; b1; b2] |}.
Proof.
  unfold Image_merge. change (getmodebands "RGB") with 3%nat.
  destruct images as [|o0 [|o1 [|o2 [|o3 images]]]]; try discriminate.
  destruct o0 as [i0|], o1 as [i1|], o2 as [i2|];
    cbn [length Nat.eqb negb mapM mbind option_bind mret option_ret id];
    try discriminate.
  cbn.
  destruct (String.eqb_spec (mode i0) "L") as [H0|]; [|discriminate].
  destruct (bands i0) as [|b0 [|? ?]] eqn:Hb0; try discriminate.
  destruct (String.eqb_spec (mode i1) "L") as [H1|]; [|discriminate].
  destruct (bands i1) as [|b1 [|? ?]] eqn:Hb1; try discriminate.
  destruct (String.eqb_spec (mode i2) "L") as [H2|]; [|discriminate].
  destruct (bands i2) as [|b2 [|? ?]] eqn:Hb2; try discriminate.
  cbn.
  rewrite (bool_decide_eq_true_2 (size i0 = size i0)) by done. cbn.
  case_bool_decide as Hs1; [|discriminate]. cbn.
  case_bool_decide as Hs2; [|discriminate]. cbn.
  intros [= <-]. exists i0, i1, i2, b0, b1, b2. by rewrite Hb0, Hb1, Hb2.
Qed.

(** X12. [enrich] has no check of its own; what it relies on is
    [Image.merge].  Whenever the body of its loop returns, the group had
    exactly three members, the dictionary held an image for each, each image
    had the single band of mode L and all three had one size; the composite
    stored under the name has that size and these three bands in the order
    of the members.  A group of two or four members, a missing image or a
    size mismatch makes [enrich] raise. *)
Theorem enrich_only_merges_triplets_X12 (paths : list string)
    (images_dict : list (string * image)) (n : string)
    (acc acc' : list (string * image)) :
  enrich_body paths images_dict n acc = Done acc' ->
  exists p0 p1 p2 i0 i1 i2 b0 b1 b2,
    corresponding_paths paths n = Done [p0; p1; p2] /\
    Dict.get images_dict p0 = Some i0 /\
    Dict.get images_dict p1 = Some i1 /\
    Dict.get images_dict p2 = Some i2 /\
    mode i0 = "L" /\ mode i1 = "L" /\ mode i2 = "L" /\
    bands i0 = [b0] /\ bands i1 = [b1] /\ bands i2 = [b2] /\
    size i1 = size i0 /\ size i2 = size i0 /\
    acc' = Dict.set n {| mode := "RGB"; size := size i0;
                         bands := [b0; b1; b2] |} acc.
Proof.
  unfold enrich_body.
  destruct (corresponding_paths paths n) as [ps|e]; [|discriminate]. cbn.
  destruct (Image_merge "RGB" _) as [merged|e] eqn:Hm; [|discriminate]. cbn.
  intros [= <-].
  apply Image_merge_RGB_done in Hm
    as (i0 & i1 & i2 & b0 & b1 & b2 & Himgs & ? & ? & ? & ? & ? & ? & ? & ? & ->).
  destruct ps as [|p0 [|p1 [|p2 [|p3 ps]]]]; try discriminate.
  injection Himgs as Hg0 Hg1 Hg2.
  exists p0, p1, p2, i0, i1, i2, b0, b1, b2. by split_and!.
Qed.

Lemma enrich_only_merges_triplets_X12_witness :
  exists p0 p1 p2 i0 i1 i2 b0 b1 b2,
    corresponding_paths sample_AB_paths "SampleA  SampleB.png"
    = Done [p0; p1; p2] /\
    Dict.get sample_AB_images p0 = Some i0 /\
    Dict.get sample_AB_images p1 = Some i1 /\
    Dict.get sample_AB_images p2 = Some i2 /\
    mode i0 = "L" /\ mode i1 = "L" /\ mode i2 = "L" /\
    bands i0 = [b0] /\ bands i1 = [b1] /\ bands i2 = [b2] /\
    size i1 = size i0 /\ size i2 = size i0 /\
    [("SampleA  SampleB.png",
      {| mode := "RGB"; size := (64, 64)%nat;
         bands := [replicate 4096 10%Z; replicate 4096 20%Z;
                   replicate 4096 30%Z] |})]
    = Dict.set "SampleA  SampleB.png"
        {| mode := "RGB"; size := size i0; bands := [b0; b1; b2] |} [].
Proof.
  apply (enrich_only_merges_triplets_X12 sample_AB_paths sample_AB_images
           "SampleA  SampleB.png" []).
  vm_compute. reflexivity.
Defined.

(** ** More on defect detection *)

Lemma sublist_filter_weaken {A} (P Q : A -> Prop)
    `{!forall x, Decision (P x)} `{!forall x, Decision (Q x)} (l : list A) :
  (forall x, P x -> Q x) -> sublist (filter P l) (filter Q l).
Proof.
  intros HPQ. induction l as [|x l IH]; [done|].
  rewrite !filter_cons.
  destruct (decide (P x)) as [HP|HP].
  - rewrite decide_True by auto. by apply sublist_skip.
  - destruct (decide (Q x)); [by apply sublist_cons | done].
Qed.

(** X13. The threshold of the defect detector is strict and monotone: a
    detection whose score equals the threshold is dropped; the detections
    kept are a sublist of the predictions, in their order; raising the
    threshold keeps a sublist of what was kept before, and an image that is
    skipped at one threshold is skipped at every higher one. *)
Theorem threshold_is_strict_and_monotone_X13
    (forward : image -> list detection) (thr1 thr2 : Q) (fs : filesystem)
    (img : image) (path : string) :
  (thr1 <= thr2)%Q ->
  sublist (kept_detections forward thr1 img) (forward img) /\
  sublist (kept_detections forward thr2 img) (kept_detections forward thr1 img) /\
  (forall d, d ∈ forward img -> (det_score d == thr1)%Q ->
             d ∉ kept_detections forward thr1 img) /\
  (annotated_of forward thr1 fs path = None ->
   annotated_of forward thr2 fs path = None).
Proof.
  intros Hle.
  assert (Hsub : sublist (kept_detections forward thr2 img)
                         (kept_detections forward thr1 img)).
  { apply sublist_filter_weaken. intros d. rewrite !Qltb_lt. lra. }
  split_and!; [apply sublist_filter | done | |].
  - intros d _ Heq [_ Hlt]%kept_detections_spec. lra.
  - unfold annotated_of. destruct (Image_open path fs) as [im|e]; [|done].
    assert (Hs : sublist (kept_detections forward thr2 im)
                         (kept_detections forward thr1 im)).
    { apply sublist_filter_weaken. intros d. rewrite !Qltb_lt. lra. }
    destruct (kept_detections forward thr1 im); [|discriminate].
    intros _. apply sublist_nil_r in Hs. by rewrite Hs.
Qed.

Lemma threshold_is_strict_and_monotone_X13_witness :
  sublist (kept_detections example_model (1 # 2) (one_pixel 1))
          (example_model (one_pixel 1)) /\
  sublist (kept_detections example_model (9 # 10) (one_pixel 1))
          (kept_detections example_model (1 # 2) (one_pixel 1)) /\
  (forall d, d ∈ example_model (one_pixel 1) -> (det_score d == 1 # 2)%Q ->
             d ∉ kept_detections example_model (1 # 2) (one_pixel 1)) /\
  (annotated_of example_model (1 # 2) two_composites_fs
                "W/4.Enrichment_images/B s.png" = None ->
   annotated_of example_model (9 # 10) two_composites_fs
                "W/4.Enrichment_images/B s.png" = None).
Proof.
  apply (threshold_is_strict_and_monotone_X13 example_model (1 # 2) (9 # 10)
           two_composites_fs (one_pixel 1) "W/4.Enrichment_images/B s.png").
  vm_compute. discriminate.
Defined.
